(** * ensure: assertion predicates reporting through a Fataler

    A shallow embedding of the Go package [ensure] in its two historical
    variants:

    - [StackWalk]: [ensure.go], which prefixes every message with a source
      location computed by [pstack] from the captured call stack;
    - [Delegated]: the later file, which calls [Helper()] on the [Fataler]
      and lets the test runner attribute the failure.

    Go's [interface{}] values are embedded as the inductive type [Value];
    the packages the code imports ([strings], [fmt], [reflect],
    [path/filepath]) are embedded as the functions the code calls, with the
    names it calls them by, and [unicode] and [unicode/utf8] as far as
    [strings.TrimSpace] needs them.  The pretty-printer [spew.Sdump], the stack
    renderer [stack.Stack.String] and the subset check are collaborators of
    the package and are taken as parameters ([Collaborators]). *)

From Stdlib Require Import ZArith Ascii String List Bool Lia Permutation.
From Stdlib Require Import Floats.SpecFloat.
From stdpp Require Import base option list gmap strings pretty.

Open Scope string_scope.

(** ** Characters the format strings use *)

Definition nl : string := String "010"%char "".
Definition dq : string := String "034"%char "".
Definition backspace : string := String "008"%char "".

(** ** Bytes and slices of strings *)

(** [s[i]] as a number. *)
Definition byte_value (c : ascii) : Z := Z.of_N (N_of_ascii c).

(** [s[i:]] and [s[:i]], for [i] up to the length of [s] (beyond it Go
    panics; the embedding never slices there). *)
Fixpoint slice_from (i : nat) (s : string) : string :=
  match i, s with
  | S i', String _ s' => slice_from i' s'
  | _, _ => s
  end.

Fixpoint slice_to (i : nat) (s : string) : string :=
  match i, s with
  | S i', String c s' => String c (slice_to i' s')
  | _, _ => ""
  end.

(** ** Package [unicode/utf8] *)

Module utf8.
Local Open Scope Z_scope.

Definition RuneError : Z := 0xFFFD.
Definition RuneSelf : Z := 0x80.
Definition UTFMax : nat := 4.

(** An entry of the table [first]: what a byte says about the encoding
    it begins. *)
Inductive Lead : Type :=
| ascii_byte                          (* [as]: the byte is the rune *)
| invalid_byte                        (* [xx]: no encoding begins with it *)
| lead_byte (sz : nat) (lo hi : Z).   (* [sz] bytes, the second in [lo..hi] *)

Definition first (b : Z) : Lead :=
  if b <? 0x80 then ascii_byte
  else if b <? 0xC2 then invalid_byte
  else if b <? 0xE0 then lead_byte 2 0x80 0xBF
  else if b =? 0xE0 then lead_byte 3 0xA0 0xBF
  else if b <? 0xED then lead_byte 3 0x80 0xBF
  else if b =? 0xED then lead_byte 3 0x80 0x9F
  else if b <? 0xF0 then lead_byte 3 0x80 0xBF
  else if b =? 0xF0 then lead_byte 4 0x90 0xBF
  else if b <? 0xF4 then lead_byte 4 0x80 0xBF
  else if b =? 0xF4 then lead_byte 4 0x80 0x8F
  else invalid_byte.

Definition locb : Z := 0x80.
Definition hicb : Z := 0xBF.
Definition maskx : Z := 0x3F.
Definition mask2 : Z := 0x1F.
Definition mask3 : Z := 0x0F.
Definition mask4 : Z := 0x07.

(** [utf8.DecodeRuneInString]: the first rune of [s] and the number of
    bytes of its encoding; [(RuneError, 0)] on the empty string and
    [(RuneError, 1)] where [s] does not begin with an encoding. *)
Definition DecodeRuneInString (s : string) : Z * nat :=
  match s with
  | ""%string => (RuneError, 0%nat)
  | String c0 s' =>
      let s0 := byte_value c0 in
      match first s0 with
      | ascii_byte => (s0, 1%nat)
      | invalid_byte => (RuneError, 1%nat)
      | lead_byte sz lo hi =>
          if (String.length s <? sz)%nat then (RuneError, 1%nat)
          else
            match s' with
            | ""%string => (RuneError, 1%nat)
            | String c1 s'' =>
                let s1 := byte_value c1 in
                if (s1 <? lo) || (hi <? s1) then (RuneError, 1%nat)
                else if (sz <=? 2)%nat then
                  (Z.lor (Z.shiftl (Z.land s0 mask2) 6) (Z.land s1 maskx), 2%nat)
                else
                  match s'' with
                  | ""%string => (RuneError, 1%nat)
                  | String c2 s''' =>
                      let s2 := byte_value c2 in
                      if (s2 <? locb) || (hicb <? s2) then (RuneError, 1%nat)
                      else if (sz <=? 3)%nat then
                        (Z.lor (Z.lor (Z.shiftl (Z.land s0 mask3) 12)
                                      (Z.shiftl (Z.land s1 maskx) 6))
                               (Z.land s2 maskx), 3%nat)
                      else
                        match s''' with
                        | ""%string => (RuneError, 1%nat)
                        | String c3 _ =>
                            let s3 := byte_value c3 in
                            if (s3 <? locb) || (hicb <? s3)
                            then (RuneError, 1%nat)
                            else
                              (Z.lor (Z.lor (Z.lor
                                 (Z.shiftl (Z.land s0 mask4) 18)
                                 (Z.shiftl (Z.land s1 maskx) 12))
                                 (Z.shiftl (Z.land s2 maskx) 6))
                                 (Z.land s3 maskx), 4%nat)
                        end
                  end
            end
      end
  end.

(** [utf8.RuneStart]: the byte is not a continuation byte. *)
Definition RuneStart (b : Z) : bool := negb (Z.land b 0xC0 =? 0x80).

(** The loop of [DecodeLastRuneInString]: going down from [start] and not
    below [lim], the first index that holds a byte a rune can start with;
    the index below [lim] when there is none. *)
Fixpoint rune_start_before (s : string) (lim : Z) (n : nat) (start : Z) : Z :=
  match n with
  | O => start
  | S n' =>
      if start <? lim then start
      else
        match String.get (Z.to_nat start) s with
        | Some c =>
            if RuneStart (byte_value c) then start
            else rune_start_before s lim n' (start - 1)
        | None => start
        end
  end.

(** [utf8.DecodeLastRuneInString]: the last rune of [s] and the number of
    bytes of its encoding. *)
Definition DecodeLastRuneInString (s : string) : Z * nat :=
  let end_ := Z.of_nat (String.length s) in
  match String.get (Z.to_nat (end_ - 1)) s with
  | None => (RuneError, 0%nat)
  | Some c =>
      let r := byte_value c in
      if r <? RuneSelf then (r, 1%nat)
      else
        let lim := Z.max 0 (end_ - Z.of_nat UTFMax) in
        let start := Z.max 0 (rune_start_before s lim UTFMax (end_ - 2)) in
        let '(r, size) := DecodeRuneInString (slice_from (Z.to_nat start) s) in
        if start + Z.of_nat size =? end_ then (r, size) else (RuneError, 1%nat)
  end.

End utf8.

(** ** Package [unicode] *)

Module unicode.
Local Open Scope Z_scope.

Definition MaxLatin1 : Z := 0xFF.

(** [unicode.IsSpace]: the Latin-1 white space, and beyond Latin-1 the
    ranges of the table [White_Space]. *)
Definition IsSpace (r : Z) : bool :=
  if r <=? MaxLatin1 then
    ((0x09 <=? r) && (r <=? 0x0D)) || (r =? 0x20) || (r =? 0x85) || (r =? 0xA0)
  else
    (r =? 0x1680) || ((0x2000 <=? r) && (r <=? 0x200A))
    || ((0x2028 <=? r) && (r <=? 0x2029)) || (r =? 0x202F) || (r =? 0x205F)
    || (r =? 0x3000).

End unicode.

(** ** Package [strings] *)

Module strings.

(** [strings.HasPrefix] *)
Fixpoint HasPrefix (s prefix : string) {struct prefix} : bool :=
  match prefix, s with
  | "", _ => true
  | String p prefix', String c s' => Ascii.eqb c p && HasPrefix s' prefix'
  | String _ _, "" => false
  end.

(** [strings.Contains]: [substr] occurs at some offset of [s]. *)
Fixpoint Contains (s substr : string) : bool :=
  HasPrefix s substr ||
  match s with
  | "" => false
  | String _ s' => Contains s' substr
  end.

(** [strings.Repeat] *)
Fixpoint Repeat (s : string) (count : nat) : string :=
  match count with
  | O => ""
  | S n => s +:+ Repeat s n
  end.

(** [strings.TrimLeft]: [s] without its leading bytes that occur in
    [cutset] (a cutset of ASCII bytes). *)
Fixpoint TrimLeft (s cutset : string) : string :=
  match s with
  | "" => ""
  | String c s' =>
      if existsb (Ascii.eqb c) (list_ascii_of_string cutset)
      then TrimLeft s' cutset else s
  end.

(** The loop of [TrimLeftFunc] ([indexFunc]): the runes of [s] are decoded
    from the left, and [s] is returned from the first rune that [f] does
    not hold of.  A byte that begins no encoding counts as the rune
    [RuneError], one byte wide.  [n] bounds the number of runes looked
    at; the length of [s] is enough. *)
Fixpoint trimLeft (n : nat) (f : Z -> bool) (s : string) : string :=
  match n, s with
  | S n', String _ _ =>
      let '(r, size) := utf8.DecodeRuneInString s in
      if f r then trimLeft n' f (slice_from size s) else s
  | _, _ => s
  end.

(** [strings.TrimLeftFunc] *)
Definition TrimLeftFunc (s : string) (f : Z -> bool) : string :=
  trimLeft (String.length s) f s.

(** The loop of [TrimRightFunc] ([lastIndexFunc]): the runes of [s] are
    decoded from the right, and [s] is returned up to and with the last
    rune that [f] does not hold of. *)
Fixpoint trimRight (n : nat) (f : Z -> bool) (s : string) : string :=
  match n, s with
  | S n', String _ _ =>
      let '(r, size) := utf8.DecodeLastRuneInString s in
      if f r then trimRight n' f (slice_to (String.length s - size) s) else s
  | _, _ => s
  end.

(** [strings.TrimRightFunc] *)
Definition TrimRightFunc (s : string) (f : Z -> bool) : string :=
  trimRight (String.length s) f s.

(** [strings.TrimFunc] *)
Definition TrimFunc (s : string) (f : Z -> bool) : string :=
  TrimRightFunc (TrimLeftFunc s f) f.

(** [strings.TrimSpace]: [s] without its leading and trailing white
    space, as Unicode defines it.  (Go first skips the ASCII white space
    at both ends and hands over to [TrimFunc] at the first byte that is
    not ASCII, which returns the same string.) *)
Definition TrimSpace (s : string) : string := TrimFunc s unicode.IsSpace.

End strings.

(** [s[:len(s)-1]]: Go panics when [s] is empty (slice bounds out of
    range), which is [None] here. *)
Fixpoint init_bytes (s : string) : option string :=
  match s with
  | "" => None
  | String c s' =>
      match init_bytes s' with
      | None => Some ""
      | Some r => Some (String c r)
      end
  end.

(** ** Package [path/filepath] (with [/] as the separator) *)

Module filepath.

Definition IsPathSeparator (c : ascii) : bool := Ascii.eqb c "/"%char.

Definition hasSeparator (path : string) : bool :=
  existsb IsPathSeparator (list_ascii_of_string path).

(** [path[i+1:]] for the last index [i] that holds a separator, and
    [path] itself when there is none. *)
Fixpoint lastElement (path : string) : string :=
  match path with
  | "" => ""
  | String c path' =>
      if hasSeparator path' then lastElement path'
      else if IsPathSeparator c then path' else path
  end.

Fixpoint stripTrailingSeparators (path : string) : string :=
  match path with
  | "" => ""
  | String c path' =>
      match stripTrailingSeparators path' with
      | "" => if IsPathSeparator c then "" else String c ""
      | r => String c r
      end
  end.

(** [filepath.Base] *)
Definition Base (path : string) : string :=
  if String.eqb path "" then "."
  else
    let p := lastElement (stripTrailingSeparators path) in
    if String.eqb p "" then "/" else p.

End filepath.

(** ** Go values *)

(** A value of an error type: its dynamic type, what [Error()] returns and
    what the value prints under [%+v] (the [Error()] text unless the type
    implements [fmt.Formatter]). *)
Record GoError := mkError {
  etype : string;
  Error : string;
  Verbose : string
}.

(** The fragment of Go's dynamic values the development ranges over.  Every
    constructor but [VNil] carries (or determines) a dynamic type.  A
    slice that is not nil is its data pointer ([array], the address of its
    first element) and the elements it sees there; non-nil pointers, maps
    and channels are outside the fragment. *)
Unset Elimination Schemes.
Inductive Value : Type :=
| VNil                                              (* the nil interface value *)
| VBool (b : bool)
| VInt (ty : string) (n : Z)                        (* int, uint8, int64, ... *)
| VFloat64 (x : spec_float)
| VString (s : string)
| VError (e : GoError)                              (* non-nil, implements error *)
| VNilPtr (ty : string) (as_error : option string)  (* typed nil pointer *)
| VFunc (ty : string) (code : option nat)           (* [None]: nil func *)
| VSlice (ty : string) (data : option (positive * list Value))
                                                    (* [None]: nil slice *)
| VStruct (ty : string) (fields : list Value).
Set Elimination Schemes.

(** [v == nil] on an interface value: only the nil interface, never a typed
    nil held in an interface. *)
Definition is_nil (v : Value) : bool :=
  match v with VNil => true | _ => false end.

(** [_, ok := v.(error)]: does the dynamic type implement [error], and if so
    what do [Error()] (for [%s]) and [%+v] print.  For a typed nil pointer
    [as_error] holds what [fmt] prints for the nil receiver. *)
Definition as_error (v : Value) : option GoError :=
  match v with
  | VError e => Some e
  | VNilPtr ty (Some txt) => Some (mkError ty txt txt)
  | _ => None
  end.

(** Induction on values, with the elements of slices and the fields of
    structs as premises. *)
Definition Value_nested_ind (P : Value -> Prop)
    (HNil : P VNil) (HBool : forall b, P (VBool b))
    (HInt : forall ty n, P (VInt ty n)) (HFloat : forall x, P (VFloat64 x))
    (HString : forall s, P (VString s)) (HError : forall e, P (VError e))
    (HNilPtr : forall ty ae, P (VNilPtr ty ae))
    (HFunc : forall ty c, P (VFunc ty c))
    (HNilSlice : forall ty, P (VSlice ty None))
    (HSlice : forall ty array xs,
        Forall P xs -> P (VSlice ty (Some (array, xs))))
    (HStruct : forall ty fs, Forall P fs -> P (VStruct ty fs)) :
  forall v, P v :=
  fix go (v : Value) : P v :=
    let all := fix all (l : list Value) : Forall P l :=
                 match l with
                 | [] => @List.Forall_nil _ P
                 | x :: l' => @List.Forall_cons _ P x l' (go x) (all l')
                 end in
    match v with
    | VNil => HNil
    | VBool b => HBool b
    | VInt ty n => HInt ty n
    | VFloat64 x => HFloat x
    | VString s => HString s
    | VError e => HError e
    | VNilPtr ty ae => HNilPtr ty ae
    | VFunc ty c => HFunc ty c
    | VSlice ty None => HNilSlice ty
    | VSlice ty (Some (array, xs)) => HSlice ty array xs (all xs)
    | VStruct ty fs => HStruct ty fs (all fs)
    end.

(** ** Package [reflect] *)

Module reflect.

Definition eq_error (a b : GoError) : bool :=
  String.eqb (etype a) (etype b) && String.eqb (Error a) (Error b)
  && String.eqb (Verbose a) (Verbose b).

(** The same float, bit for bit. *)
Definition same_float (a b : spec_float) : bool :=
  match a, b with
  | S754_zero s, S754_zero s' | S754_infinity s, S754_infinity s' => Bool.eqb s s'
  | S754_nan, S754_nan => true
  | S754_finite s m e, S754_finite s' m' e' =>
      Bool.eqb s s' && Pos.eqb m m' && Z.eqb e e'
  | _, _ => false
  end.

Definition same_option {A} (same : A -> A -> bool) (a b : option A) : bool :=
  match a, b with
  | None, None => true
  | Some x, Some y => same x y
  | _, _ => false
  end.

(** Two values that are one and the same: the same type, the same words,
    the same data pointers.  Two slice headers with one data pointer and
    one length see the same memory, hence the same elements; the
    embedding keeps the elements in the slice, so there one slice is one
    data pointer with the same elements. *)
Fixpoint identical (x y : Value) : bool :=
  match x, y with
  | VNil, VNil => true
  | VBool a, VBool b => Bool.eqb a b
  | VInt ta a, VInt tb b => String.eqb ta tb && Z.eqb a b
  | VFloat64 a, VFloat64 b => same_float a b
  | VString a, VString b => String.eqb a b
  | VError a, VError b => eq_error a b
  | VNilPtr ta ea, VNilPtr tb eb =>
      String.eqb ta tb && same_option String.eqb ea eb
  | VFunc ta ca, VFunc tb cb => String.eqb ta tb && same_option Nat.eqb ca cb
  | VSlice ta a, VSlice tb b =>
      String.eqb ta tb &&
      match a, b with
      | None, None => true
      | Some (p, xs), Some (q, ys) =>
          Pos.eqb p q &&
          (fix same_list (xs ys : list Value) : bool :=
             match xs, ys with
             | [], [] => true
             | x :: xs', y :: ys' => identical x y && same_list xs' ys'
             | _, _ => false
             end) xs ys
      | _, _ => false
      end
  | VStruct ta a, VStruct tb b =>
      String.eqb ta tb &&
      (fix same_list (xs ys : list Value) : bool :=
         match xs, ys with
         | [], [] => true
         | x :: xs', y :: ys' => identical x y && same_list xs' ys'
         | _, _ => false
         end) a b
  | _, _ => false
  end.

(** [reflect.DeepEqual] on the fragment: values of distinct types are
    never deeply equal; floats compare with [==] (so NaN differs from
    itself); func values are equal only when both are nil; a nil slice
    and an empty slice differ; structs compare field by field.  Two
    slices of one length are deeply equal when they have the same data
    pointer ([v1.UnsafePointer() == v2.UnsafePointer()], here
    [identical]: they are one slice, and their elements are not compared)
    or when their elements are deeply equal one by one. *)
Fixpoint DeepEqual (x y : Value) : bool :=
  match x, y with
  | VNil, VNil => true
  | VBool a, VBool b => Bool.eqb a b
  | VInt ta a, VInt tb b => String.eqb ta tb && Z.eqb a b
  | VFloat64 a, VFloat64 b => SFeqb a b
  | VString a, VString b => String.eqb a b
  | VError a, VError b => eq_error a b
  | VNilPtr ta _, VNilPtr tb _ => String.eqb ta tb
  | VFunc ta ca, VFunc tb cb =>
      String.eqb ta tb &&
      match ca, cb with None, None => true | _, _ => false end
  | VSlice ta a, VSlice tb b =>
      String.eqb ta tb &&
      match a, b with
      | None, None => true
      | Some (_, xs), Some (_, ys) =>
          identical x y ||
          (fix eq_list (xs ys : list Value) : bool :=
             match xs, ys with
             | [], [] => true
             | x :: xs', y :: ys' => DeepEqual x y && eq_list xs' ys'
             | _, _ => false
             end) xs ys
      | _, _ => false
      end
  | VStruct ta a, VStruct tb b =>
      String.eqb ta tb &&
      (fix eq_list (xs ys : list Value) : bool :=
         match xs, ys with
         | [], [] => true
         | x :: xs', y :: ys' => DeepEqual x y && eq_list xs' ys'
         | _, _ => false
         end) a b
  | _, _ => false
  end.

(** [rv.Len()] and [rv.Index(i).Interface()] for [i] below the length,
    as [toInterfaceSlice] uses them: defined on slices and strings (whose
    elements are their bytes); [None] is the panic of [reflect] on any
    other kind. *)
Definition elements (v : Value) : option (list Value) :=
  match v with
  | VSlice _ (Some (_, xs)) => Some xs
  | VSlice _ None => Some []
  | VString s =>
      Some (map (fun c => VInt "uint8" (Z.of_nat (nat_of_ascii c)))
                (list_ascii_of_string s))
  | _ => None
  end.

End reflect.

(** ** Package [regexp] *)

(** A compiled pattern: its source text ([String()]) and its matcher
    ([MatchString]). *)
Record Regexp := mkRegexp {
  re_String : string;
  MatchString : string -> bool
}.

(** ** Package [fmt] *)

Module fmt.

(** The operands the package passes in [FormatArgs]. *)
Inductive Arg : Type :=
| AString (s : string)
| AInt (n : Z)
| ARegexp (re : Regexp)
| AError (e : GoError).

Inductive Verb := verb_s | verb_d | verb_plus_v.

Definition verb_name (v : Verb) : string :=
  match v with verb_s => "s" | verb_d => "d" | verb_plus_v => "v" end.

(** One operand under one verb.  [%s] prints a string as it is, a
    [Stringer] through [String()] and an error through [Error()]; [%+v]
    prints an error in its verbose form; [%d] prints an integer in
    decimal.  The remaining pairs are Go's bad-verb forms; no format of
    the package reaches them. *)
Definition format_arg (v : Verb) (a : Arg) : string :=
  match v, a with
  | verb_s, AString s | verb_plus_v, AString s => s
  | verb_d, AString s => "%!d(string=" +:+ s +:+ ")"
  | verb_d, AInt n | verb_plus_v, AInt n => pretty n
  | verb_s, AInt n => "%!s(int=" +:+ pretty n +:+ ")"
  | verb_s, ARegexp re | verb_plus_v, ARegexp re => re_String re
  | verb_d, ARegexp re => "%!d(*regexp.Regexp)"
  | verb_s, AError e => Error e
  | verb_plus_v, AError e => Verbose e
  | verb_d, AError e => "%!d(" +:+ etype e +:+ ")"
  end.

(** A verb applied to the next operand; [%!v(MISSING)] when the operands
    have run out. *)
Definition directive (v : Verb) (args : list Arg) : string * list Arg :=
  match args with
  | [] => ("%!" +:+ verb_name v +:+ "(MISSING)", [])
  | a :: args' => (format_arg v a, args')
  end.

(** [fmt.Sprintf] for the verbs [%s], [%d], [%+v] and [%%]; any other
    directive is copied as it stands (no format of the package has one).
    Operands left over when the format ends are dropped (Go appends an
    [EXTRA] note; the package always passes as many operands as verbs). *)
Fixpoint Sprintf (format : string) (args : list Arg) : string :=
  match format with
  | "" => ""
  | String c rest =>
      if Ascii.eqb c "%"%char then
        match rest with
        | "" => "%!(NOVERB)"
        | String v rest' =>
            if Ascii.eqb v "s"%char then
              let (out, args') := directive verb_s args in
              out +:+ Sprintf rest' args'
            else if Ascii.eqb v "d"%char then
              let (out, args') := directive verb_d args in
              out +:+ Sprintf rest' args'
            else if Ascii.eqb v "%"%char then
              String "%"%char (Sprintf rest' args)
            else if Ascii.eqb v "+"%char then
              match rest' with
              | String w rest'' =>
                  if Ascii.eqb w "v"%char then
                    let (out, args') := directive verb_plus_v args in
                    out +:+ Sprintf rest'' args'
                  else String c (Sprintf rest args)
              | "" => String c (Sprintf rest args)
              end
            else String c (Sprintf rest args)
        end
      else String c (Sprintf rest args)
  end.

End fmt.

Import fmt.

(** ** Package [stack] *)

(** [stack.Frame] *)
Record Frame := mkFrame {
  File : string;
  Line : Z;
  Name : string
}.

(** ** Collaborators *)

(** The three external operations the package consumes without looking
    inside: [spew.Sdump(a...)], [stack.Stack.String()] and
    [subset.Check(expected, target)]. *)
Class Collaborators := {
  Sdump : list Value -> string;
  Stack_String : list Frame -> string;
  subset_Check : Value -> Value -> bool
}.

(** ** The Fataler and the effects of a call *)

(** What a predicate can observe of its [Fataler]: whether [Fatal] hands
    control back (a recording sink does, [testing.T] ends the goroutine)
    and whether the value also has a [Helper()] method. *)
Record Fataler := mkFataler {
  Fatal_returns : bool;
  has_Helper : bool
}.

(** The calls a predicate makes on its [Fataler], in order. *)
Inductive Event : Type :=
| Helper
| Fatal (msg : string).

(** How a computation ends: with a result, by the [Fataler] ending the
    goroutine inside [Fatal], or by a panic carrying a value. *)
Inductive Res (A : Type) : Type :=
| Ok (a : A)
| Goexit
| Panic (v : Value).
Arguments Ok {A} a.
Arguments Goexit {A}.
Arguments Panic {A} v.

(** A computation appends to the log of calls made on the [Fataler]. *)
Definition M (A : Type) : Type := list Event -> list Event * Res A.

Definition ret {A} (a : A) : M A := fun log => (log, Ok a).

Definition bind {A B} (m : M A) (k : A -> M B) : M B :=
  fun log =>
    match m log with
    | (log', Ok a) => k a log'
    | (log', Goexit) => (log', Goexit)
    | (log', Panic v) => (log', Panic v)
    end.

Definition panic {A} (v : Value) : M A := fun log => (log, Panic v).

#[global] Instance M_ret : MRet M := @ret.
#[global] Instance M_bind : MBind M := fun A B k m => bind m k.

(** [t.Fatal(msg)] *)
Definition call_Fatal (t : Fataler) (msg : string) : M unit :=
  fun log => ((log ++ [Fatal msg])%list, if Fatal_returns t then Ok tt else Goexit).

(** [helper(t).Helper()]: the [Fataler]'s own [Helper] when it has one, the
    empty method of [helperWrapper] otherwise. *)
Definition call_Helper (t : Fataler) : M unit :=
  fun log => (if has_Helper t then (log ++ [Helper])%list else log, Ok tt).

(** A call from an empty log. *)
Definition run {A} (m : M A) : list Event * Res A := m [].

(** The messages dispatched through [Fatal], in order. *)
Fixpoint dispatched (log : list Event) : list string :=
  match log with
  | [] => []
  | Helper :: log' => dispatched log'
  | Fatal msg :: log' => msg :: dispatched log'
  end.

(** Run-time panics of the Go runtime and of [reflect]. *)
Definition runtime_error (msg : string) : Value :=
  VError (mkError "runtime.Error" ("runtime error: " +:+ msg)
                  ("runtime error: " +:+ msg)).

Definition reflect_error (msg : string) : Value :=
  VError (mkError "*reflect.ValueError" msg msg).

(** ** Code shared by the two variants *)

Section Shared.
Context `{Collaborators}.

(** tsdump is Sdump without the trailing newline. *)
Definition tsdump (a : list Value) : string :=
  strings.TrimSpace (Sdump a).

(** makes any slice into an []interface{} *)
Definition toInterfaceSlice (v : Value) : M (list Value) :=
  match reflect.elements v with
  | Some ret_ => ret ret_
  | None => panic (reflect_error "reflect: call of reflect.Value.Len on a value that has no length")
  end.

(** [vs[:len(vs)-1]] *)
Definition all_but_last (vs : string) : M string :=
  match init_bytes vs with
  | Some s => ret s
  | None => panic (runtime_error "slice bounds out of range [:-1]")
  end.

(** [used[i]] on a [map[int]bool]: false for a missing key. *)
Definition used_at (used : gmap nat bool) (i : nat) : bool :=
  default false (used !! i).

(** The inner loop of [SameElements]: the first index [i] of
    [actualSlice], counted from [i0], with [!used[i]] and
    [reflect.DeepEqual(a, b)]. *)
Fixpoint scan (used : gmap nat bool) (a : Value) (i0 : nat)
         (actualSlice : list Value) : option nat :=
  match actualSlice with
  | [] => None
  | b :: rest =>
      if negb (used_at used i0) && reflect.DeepEqual a b then Some i0
      else scan used a (S i0) rest
  end.

End Shared.

(** ** Variant 1: [ensure.go], location by walking the stack *)

Module StackWalk.

(** cond represents a condition that wasn't satisfied, and is useful to
    generate log messages. *)
Record cond := mkCond {
  cond_Fataler : Fataler;
  Skip : nat;
  Format : string;
  FormatArgs : list Arg;
  Extra : list Value
}.

(** A frame of this package on the goroutine's stack. *)
Definition here (name : string) (line : Z) : Frame :=
  mkFrame "github.com/facebookgo/ensure/ensure.go" line name.

(** [stack.Callers(skip)], given the goroutine's stack with the caller of
    [Callers] on top: the frames left after ascending [skip] of them. *)
Definition Callers (skip : nat) (goroutine : list Frame) : list Frame :=
  drop skip goroutine.

(** This deletes "ensure.go:xx" removing a confusing piece of information
    since it will be an internal reference. *)
Definition deleteSelf : string := strings.Repeat backspace 15.

Definition isTestFrame (f : Frame) : bool :=
  strings.HasPrefix (Name f) "Test".

(** The loop of [pstack]: [snew] grows by one frame per iteration and is
    returned at the first test frame; [None] when the range ends without
    one. *)
Fixpoint upto_test (s snew : list Frame) : option (list Frame) :=
  match s with
  | [] => None
  | f :: s' =>
      let snew := (snew ++ [f])%list in
      if isTestFrame f then Some snew else upto_test s' snew
  end.

Section Code.
Context `{Collaborators}.

(** pstack is the stack upto the Test function frame. *)
Definition pstack (s : list Frame) : M string :=
  match s with
  | [] => panic (runtime_error "index out of range [0] with length 0")
  | first :: _ =>
      if isTestFrame first then
        ret (Sprintf "%s:%d: "
               [AString (filepath.Base (File first)); AInt (Line first)])
      else
        match upto_test s [] with
        | Some snew => ret ("        " +:+ Stack_String snew +:+ nl)
        | None => ret ("        " +:+ Stack_String s +:+ nl)
        end
  end.

(** [func (c cond) String() string], running with [goroutine] as the
    stack below its own frame. *)
Definition cond_String (goroutine : list Frame) (c : cond) : M string :=
  loc ← pstack (Callers (Skip c + 1) (here "cond.String" 44 :: goroutine));
  let b := Sprintf "%s%s" [AString deleteSelf; AString loc] in
  let b := if String.eqb (Format c) "" then b
           else b +:+ Sprintf (Format c) (FormatArgs c) in
  let b := if (length (Extra c) =? 0)%nat then b
           else b +:+ nl +:+ tsdump (Extra c) in
  ret b.

(** fatal triggers the fatal and logs the cond's message. It adds 2 to
    Skip, to skip itself as well as the caller. *)
Definition fatal (goroutine : list Frame) (c : cond) : M unit :=
  let c := mkCond (cond_Fataler c) (Skip c + 2) (Format c)
                  (FormatArgs c) (Extra c) in
  msg ← cond_String (here "fatal" 59 :: goroutine) c;
  call_Fatal (cond_Fataler c) msg.

(** Err ensures the error satisfies the given regular expression.
    [err] is nil or an error whose [Error()] returns; [re] is nil or a
    compiled pattern.  [callers] is the goroutine's stack at the call, the
    caller's frame on top; so for every predicate below. *)
Definition Err (callers : list Frame) (t : Fataler)
           (err : option GoError) (re : option Regexp)
           (a : list Value) : M unit :=
  match err, re with
  | None, None => ret tt
  | None, Some re =>
      fatal (here "Err" 69 :: callers)
        {| cond_Fataler := t; Skip := 0;
           Format := "expected error: " +:+ dq +:+ "%s" +:+ dq
                     +:+ " but got a nil error";
           FormatArgs := [ARegexp re];
           Extra := a |}
  | Some err, None =>
      fatal (here "Err" 79 :: callers)
        {| cond_Fataler := t; Skip := 0;
           Format := "unexpected error: %s";
           FormatArgs := [AError err];
           Extra := a |}
  | Some err, Some re =>
      if negb (MatchString re (Error err)) then
        fatal (here "Err" 89 :: callers)
          {| cond_Fataler := t; Skip := 0;
             Format := "expected error: " +:+ dq +:+ "%s" +:+ dq
                       +:+ " but got " +:+ dq +:+ "%s" +:+ dq;
             FormatArgs := [ARegexp re; AError err];
             Extra := a |}
      else ret tt
  end.

(** DeepEqual ensures actual and expected are equal. It does so using
    reflect.DeepEqual. *)
Definition DeepEqual (callers : list Frame) (t : Fataler)
           (actual expected : Value) (a : list Value) : M unit :=
  if negb (reflect.DeepEqual actual expected) then
    fatal (here "DeepEqual" 102 :: callers)
      {| cond_Fataler := t; Skip := 0;
         Format := "expected these to be equal:" +:+ nl +:+ "ACTUAL:"
                   +:+ nl +:+ "%s" +:+ nl +:+ "EXPECTED:" +:+ nl +:+ "%s";
         FormatArgs := [AString (Sdump [actual]);
                        AString (tsdump [expected])];
         Extra := a |}
  else ret tt.

(** NotDeepEqual ensures actual and expected are not equal. It does so
    using reflect.DeepEqual. *)
Definition NotDeepEqual (callers : list Frame) (t : Fataler)
           (actual expected : Value) (a : list Value) : M unit :=
  if reflect.DeepEqual actual expected then
    fatal (here "NotDeepEqual" 115 :: callers)
      {| cond_Fataler := t; Skip := 0;
         Format := "expected two different values, but got the same:"
                   +:+ nl +:+ "%s";
         FormatArgs := [AString (tsdump [actual])];
         Extra := a |}
  else ret tt.

(** Subset ensures actual matches subset. *)
Definition Subset (callers : list Frame) (t : Fataler)
           (actual subset : Value) (a : list Value) : M unit :=
  if negb (subset_Check subset actual) then
    fatal (here "Subset" 127 :: callers)
      {| cond_Fataler := t; Skip := 0;
         Format := "expected subset not found:" +:+ nl +:+ "ACTUAL:"
                   +:+ nl +:+ "%s" +:+ nl +:+ "EXPECTED SUBSET" +:+ nl
                   +:+ "%s";
         FormatArgs := [AString (Sdump [actual]);
                        AString (tsdump [subset])];
         Extra := a |}
  else ret tt.

(** Nil ensures v is nil. *)
Definition Nil (callers : list Frame) (t : Fataler)
           (v : Value) (a : list Value) : M unit :=
  let vs := tsdump [v] in
  head ← all_but_last vs;
  let sp := if strings.Contains head nl then nl else " " in
  if negb (is_nil v) then
    (* Special case errors for prettier output. *)
    match as_error v with
    | Some e =>
        fatal (here "Nil" 147 :: callers)
          {| cond_Fataler := t; Skip := 0;
             Format := "unexpected error: %s";
             FormatArgs := [AError e];
             Extra := a |}
    | None =>
        fatal (here "Nil" 154 :: callers)
          {| cond_Fataler := t; Skip := 0;
             Format := "expected nil value but got:%s%s";
             FormatArgs := [AString sp; AString vs];
             Extra := a |}
    end
  else ret tt.

(** NotNil ensures v is not nil. *)
Definition NotNil (callers : list Frame) (t : Fataler)
           (v : Value) (a : list Value) : M unit :=
  if is_nil v then
    fatal (here "NotNil" 167 :: callers)
      {| cond_Fataler := t; Skip := 0;
         Format := "expected a value but got nil";
         FormatArgs := [];
         Extra := a |}
  else ret tt.

(** True ensures v is true. *)
Definition True_ (callers : list Frame) (t : Fataler)
           (v : bool) (a : list Value) : M unit :=
  if negb v then
    fatal (here "True" 178 :: callers)
      {| cond_Fataler := t; Skip := 0;
         Format := "expected true but got false";
         FormatArgs := [];
         Extra := a |}
  else ret tt.

(** StringContains ensures string s contains the string substr. *)
Definition StringContains (callers : list Frame) (t : Fataler)
           (s substr : string) (a : list Value) : M unit :=
  if negb (strings.Contains s substr) then
    fatal (here "StringContains" 189 :: callers)
      {| cond_Fataler := t; Skip := 0;
         Format := "expected substring " +:+ dq +:+ "%s" +:+ dq
                   +:+ " was not found in " +:+ dq +:+ "%s" +:+ dq;
         FormatArgs := [AString substr; AString s];
         Extra := a |}
  else ret tt.

(** StringDoesNotContain ensures string s does not contain the string
    substr. *)
Definition StringDoesNotContain (callers : list Frame) (t : Fataler)
           (s substr : string) (a : list Value) : M unit :=
  if strings.Contains s substr then
    fatal (here "StringDoesNotContain" 201 :: callers)
      {| cond_Fataler := t; Skip := 0;
         Format := "substring " +:+ dq +:+ "%s" +:+ dq
                   +:+ " was not supposed to be found in " +:+ dq
                   +:+ "%s" +:+ dq;
         FormatArgs := [AString substr; AString s];
         Extra := a |}
  else ret tt.

(** The [outer] loop of [SameElements] over what is left of
    [expectedSlice].  Nothing leaves the loop after [fatal]: when
    [Fatal] returns, the range goes on with the next element. *)
Fixpoint SameElements_outer (callers : list Frame) (t : Fataler)
         (actual expected : Value) (extra : list Value)
         (actualSlice : list Value) (used : gmap nat bool)
         (expectedSlice : list Value) : M unit :=
  match expectedSlice with
  | [] => ret tt
  | a :: rest =>
      match scan used a 0 actualSlice with
      | Some i =>
          SameElements_outer callers t actual expected extra actualSlice
                             (<[i := true]> used) rest
      | None =>
          fatal (here "SameElements" 233 :: callers)
            {| cond_Fataler := t; Skip := 0;
               Format := "missing expected element:" +:+ nl +:+ "ACTUAL:"
                         +:+ nl +:+ "%s" +:+ nl +:+ "EXPECTED:" +:+ nl
                         +:+ "%s" +:+ nl +:+ "MISSING ELEMENT" +:+ nl
                         +:+ "%s";
               FormatArgs := [AString (tsdump [actual]);
                              AString (tsdump [expected]);
                              AString (tsdump [a])];
               Extra := extra |};;
          SameElements_outer callers t actual expected extra actualSlice
                             used rest
      end
  end.

(** SameElements ensures the two given slices contain the same elements,
    ignoring the order. It uses DeepEqual for element comparison. *)
Definition SameElements (callers : list Frame) (t : Fataler)
           (actual expected : Value) (extra : list Value) : M unit :=
  actualSlice ← toInterfaceSlice actual;
  expectedSlice ← toInterfaceSlice expected;
  (if negb (length actualSlice =? length expectedSlice)%nat then
     fatal (here "SameElements" 216 :: callers)
       {| cond_Fataler := t; Skip := 0;
          Format := "expected same elements but found slices of different lengths:"
                    +:+ nl +:+ "ACTUAL:" +:+ nl +:+ "%s" +:+ nl
                    +:+ "EXPECTED" +:+ nl +:+ "%s";
          FormatArgs := [AString (tsdump [actual]);
                         AString (tsdump [expected])];
          Extra := extra |}
   else ret tt);;
  SameElements_outer callers t actual expected extra actualSlice ∅
                     expectedSlice.

End Code.

End StackWalk.

(** ** The recording Fataler of [ensure_test.go] *)

Module Capture.

(** [capture.Fatal] prints its operand into the buffer: after the calls of
    [log] the buffer holds the messages one after the other. *)
Definition buffer (log : list Event) : string :=
  fold_right String.append "" (dispatched log).

Section Code.
Context `{Collaborators}.

(** [func (c *capture) Equal(t testing.TB, expected string)] on a capture
    whose buffer holds [content]; the optional [t.Log] of the expected
    string is not a call of [Fatal] and is left out. *)
Definition Equal (callers : list Frame) (t : Fataler) (content : string)
           (expected : string) : M unit :=
  (* trim the deleteSelf '\b' prefix *)
  let actual := strings.TrimLeft content backspace in
  StackWalk.DeepEqual callers t (VString actual) (VString expected) [].

End Code.

End Capture.

(** ** Variant 2: location delegated to the Fataler's [Helper] *)

Module Delegated.

(** cond represents a condition that wasn't satisfied, and is useful to
    generate log messages. *)
Record cond := mkCond {
  cond_Fataler : Fataler;
  Format : string;
  FormatArgs : list Arg;
  Extra : list Value
}.

(** [recover()] in a function deferred by the panicking goroutine: the
    value of the panic in flight, nil when there is none. *)
Definition recover (in_flight : option Value) : Value :=
  default VNil in_flight.

Section Code.
Context `{Collaborators}.

(** [func (c cond) String() string] *)
Definition cond_String (c : cond) : string :=
  let b := "" in
  let b := if String.eqb (Format c) "" then b
           else b +:+ Sprintf (Format c) (FormatArgs c) in
  let b := if (length (Extra c) =? 0)%nat then b
           else b +:+ nl +:+ tsdump (Extra c) in
  b.

(** fatal triggers the fatal and logs the cond's message. *)
Definition fatal (c : cond) : M unit :=
  call_Helper (cond_Fataler c);;
  call_Fatal (cond_Fataler c) (cond_String c).

(** Err ensures the error satisfies the given regular expression. *)
Definition Err (t : Fataler) (err : option GoError) (re : option Regexp)
           (a : list Value) : M unit :=
  call_Helper t;;
  match err, re with
  | None, None => ret tt
  | None, Some re =>
      fatal {| cond_Fataler := t;
               Format := "expected error: " +:+ dq +:+ "%s" +:+ dq
                         +:+ " but got a nil error";
               FormatArgs := [ARegexp re];
               Extra := a |}
  | Some err, None =>
      fatal {| cond_Fataler := t;
               Format := "unexpected error: %+v";
               FormatArgs := [AError err];
               Extra := a |}
  | Some err, Some re =>
      if negb (MatchString re (Error err)) then
        fatal {| cond_Fataler := t;
                 Format := "expected error: " +:+ dq +:+ "%s" +:+ dq
                           +:+ " but got " +:+ dq +:+ "%+v" +:+ dq;
                 FormatArgs := [ARegexp re; AError err];
                 Extra := a |}
      else ret tt
  end.

(** DeepEqual ensures actual and expected are equal. It does so using
    reflect.DeepEqual. *)
Definition DeepEqual (t : Fataler) (actual expected : Value)
           (a : list Value) : M unit :=
  call_Helper t;;
  if negb (reflect.DeepEqual actual expected) then
    fatal {| cond_Fataler := t;
             Format := "expected these to be equal:" +:+ nl +:+ "ACTUAL:"
                       +:+ nl +:+ "%s" +:+ nl +:+ "EXPECTED:" +:+ nl
                       +:+ "%s";
             FormatArgs := [AString (Sdump [actual]);
                            AString (tsdump [expected])];
             Extra := a |}
  else ret tt.

(** NotDeepEqual ensures actual and expected are not equal. It does so
    using reflect.DeepEqual. *)
Definition NotDeepEqual (t : Fataler) (actual expected : Value)
           (a : list Value) : M unit :=
  call_Helper t;;
  if reflect.DeepEqual actual expected then
    fatal {| cond_Fataler := t;
             Format := "expected two different values, but got the same:"
                       +:+ nl +:+ "%s";
             FormatArgs := [AString (tsdump [actual])];
             Extra := a |}
  else ret tt.

(** Nil ensures v is nil. *)
Definition Nil (t : Fataler) (v : Value) (a : list Value) : M unit :=
  call_Helper t;;
  let vs := tsdump [v] in
  head ← all_but_last vs;
  let sp := if strings.Contains head nl then nl else " " in
  if negb (is_nil v) then
    (* Special case errors for prettier output. *)
    match as_error v with
    | Some e =>
        fatal {| cond_Fataler := t;
                 Format := "unexpected error: %+v";
                 FormatArgs := [AError e];
                 Extra := a |}
    | None =>
        fatal {| cond_Fataler := t;
                 Format := "expected nil value but got:%s%s";
                 FormatArgs := [AString sp; AString vs];
                 Extra := a |}
    end
  else ret tt.

(** NotNil ensures v is not nil. *)
Definition NotNil (t : Fataler) (v : Value) (a : list Value) : M unit :=
  call_Helper t;;
  if is_nil v then
    fatal {| cond_Fataler := t;
             Format := "expected a value but got nil";
             FormatArgs := [];
             Extra := a |}
  else ret tt.

(** True ensures v is true. *)
Definition True_ (t : Fataler) (v : bool) (a : list Value) : M unit :=
  call_Helper t;;
  if negb v then
    fatal {| cond_Fataler := t;
             Format := "expected true but got false";
             FormatArgs := [];
             Extra := a |}
  else ret tt.

(** False ensures v is false. *)
Definition False_ (t : Fataler) (v : bool) (a : list Value) : M unit :=
  call_Helper t;;
  if v then
    fatal {| cond_Fataler := t;
             Format := "expected false but got true";
             FormatArgs := [];
             Extra := a |}
  else ret tt.

(** StringContains ensures string s contains the string substr. *)
Definition StringContains (t : Fataler) (s substr : string)
           (a : list Value) : M unit :=
  call_Helper t;;
  if negb (strings.Contains s substr) then
    let format := "expected substring " +:+ dq +:+ "%s" +:+ dq
                  +:+ " was not found in " +:+ dq +:+ "%s" +:+ dq in
    (* use multi line output if either string contains newlines *)
    let format :=
      if strings.Contains s nl || strings.Contains substr nl then
        "expected substring was not found:" +:+ nl
        +:+ "EXPECTED SUBSTRING:" +:+ nl +:+ "%s" +:+ nl +:+ "ACTUAL:"
        +:+ nl +:+ "%s"
      else format in
    fatal {| cond_Fataler := t;
             Format := format;
             FormatArgs := [AString substr; AString s];
             Extra := a |}
  else ret tt.

(** StringDoesNotContain ensures string s does not contain the string
    substr. *)
Definition StringDoesNotContain (t : Fataler) (s substr : string)
           (a : list Value) : M unit :=
  call_Helper t;;
  if strings.Contains s substr then
    fatal {| cond_Fataler := t;
             Format := "substring " +:+ dq +:+ "%s" +:+ dq
                       +:+ " was not supposed to be found in " +:+ dq
                       +:+ "%s" +:+ dq;
             FormatArgs := [AString substr; AString s];
             Extra := a |}
  else ret tt.

(** The [outer] loop of [SameElements] over what is left of
    [expectedSlice].  Nothing leaves the loop after [fatal]: when
    [Fatal] returns, the range goes on with the next element. *)
Fixpoint SameElements_outer (t : Fataler) (actual expected : Value)
         (extra : list Value) (actualSlice : list Value)
         (used : gmap nat bool) (expectedSlice : list Value) : M unit :=
  match expectedSlice with
  | [] => ret tt
  | a :: rest =>
      match scan used a 0 actualSlice with
      | Some i =>
          SameElements_outer t actual expected extra actualSlice
                             (<[i := true]> used) rest
      | None =>
          fatal {| cond_Fataler := t;
                   Format := "missing expected element:" +:+ nl
                             +:+ "ACTUAL:" +:+ nl +:+ "%s" +:+ nl
                             +:+ "EXPECTED:" +:+ nl +:+ "%s" +:+ nl
                             +:+ "MISSING ELEMENT" +:+ nl +:+ "%s";
                   FormatArgs := [AString (tsdump [actual]);
                                  AString (tsdump [expected]);
                                  AString (tsdump [a])];
                   Extra := extra |};;
          SameElements_outer t actual expected extra actualSlice used rest
      end
  end.

(** SameElements ensures the two given slices contain the same elements,
    ignoring the order. It uses DeepEqual for element comparison. *)
Definition SameElements (t : Fataler) (actual expected : Value)
           (extra : list Value) : M unit :=
  call_Helper t;;
  actualSlice ← toInterfaceSlice actual;
  expectedSlice ← toInterfaceSlice expected;
  (if negb (length actualSlice =? length expectedSlice)%nat then
     fatal {| cond_Fataler := t;
              Format := "expected same elements but found slices of different lengths:"
                        +:+ nl +:+ "ACTUAL:" +:+ nl +:+ "%s" +:+ nl
                        +:+ "EXPECTED" +:+ nl +:+ "%s";
              FormatArgs := [AString (tsdump [actual]);
                             AString (tsdump [expected])];
              Extra := extra |}
   else ret tt);;
  SameElements_outer t actual expected extra actualSlice ∅ expectedSlice.

(** PanicDeepEqual ensures a panic occurs and the recovered value is
    DeepEqual to the expected value.  [in_flight] is the panic the
    goroutine is unwinding when the deferred call runs. *)
Definition PanicDeepEqual (in_flight : option Value) (t : Fataler)
           (expected : Value) (a : list Value) : M unit :=
  call_Helper t;;
  (if is_nil expected then
     panic (VString "can't pass nil to ensure.PanicDeepEqual")
   else ret tt);;
  let actual := recover in_flight in
  if negb (reflect.DeepEqual actual expected) then
    fatal {| cond_Fataler := t;
             Format := "expected these to be equal:" +:+ nl +:+ "ACTUAL:"
                       +:+ nl +:+ "%s" +:+ nl +:+ "EXPECTED:" +:+ nl
                       +:+ "%s";
             FormatArgs := [AString (Sdump [actual]);
                            AString (tsdump [expected])];
             Extra := a |}
  else ret tt.

End Code.

End Delegated.

(** * Vocabulary of the properties *)

(** ** Strings and messages *)

(** [sub] occurs in [s]: the specification of [strings.Contains]. *)
Definition is_substring (sub s : string) : Prop :=
  exists pre post, s = pre +:+ sub +:+ post.

(** The last byte of a string. *)
Fixpoint last_byte (s : string) : option ascii :=
  match s with
  | "" => None
  | String c s' =>
      match last_byte s' with
      | None => Some c
      | Some d => Some d
      end
  end.

(** A string of white space only: the encodings of white space runes, one
    after the other. *)
Inductive white_space : string -> Prop :=
| white_space_nil : white_space ""
| white_space_rune w rest r :
    utf8.DecodeRuneInString w = (r, String.length w) ->
    unicode.IsSpace r = true ->
    white_space rest -> white_space (w +:+ rest).

(** The two shapes of the report of [StringContains]. *)
Definition single_line_text (substr s : string) : string :=
  "expected substring " +:+ dq +:+ substr +:+ dq +:+ " was not found in "
  +:+ dq +:+ s +:+ dq.

Definition block_text (substr s : string) : string :=
  "expected substring was not found:" +:+ nl +:+ "EXPECTED SUBSTRING:" +:+ nl
  +:+ substr +:+ nl +:+ "ACTUAL:" +:+ nl +:+ s.

(** A message is in block form when it carries the header of the block. *)
Definition in_block_form (msg : string) : Prop :=
  is_substring "expected substring was not found:" msg.

(** The three shapes of the report of [Err]; [shown] is the error as the
    variant prints it. *)
Definition nil_error_text (re : Regexp) : string :=
  "expected error: " +:+ dq +:+ re_String re +:+ dq +:+ " but got a nil error".

Definition unexpected_error_text (shown : string) : string :=
  "unexpected error: " +:+ shown.

Definition mismatch_text (re : Regexp) (shown : string) : string :=
  "expected error: " +:+ dq +:+ re_String re +:+ dq +:+ " but got " +:+ dq
  +:+ shown +:+ dq.

(** What [Err] has to report, if anything, following the contract table:
    it passes when both are absent or when the error is present and the
    pattern matches its text. *)
Definition Err_text (shown : GoError -> string) (err : option GoError)
           (re : option Regexp) : option string :=
  match err, re with
  | None, None => None
  | None, Some re => Some (nil_error_text re)
  | Some e, None => Some (unexpected_error_text (shown e))
  | Some e, Some re =>
      if MatchString re (Error e) then None
      else Some (mismatch_text re (shown e))
  end.

(** ** Structural equality *)

(** Two lists compared element by element. *)
Section All2.
Variable f : Value -> Value -> bool.

Fixpoint all2 (xs ys : list Value) : bool :=
  match xs, ys with
  | [], [] => true
  | x :: xs', y :: ys' => f x y && all2 xs' ys'
  | _, _ => false
  end.
End All2.

(** Floats: [==] holds between two zeros of any sign, and otherwise between
    equal floats that are not NaN. *)
Definition float_class (x : spec_float) : option spec_float :=
  match x with
  | S754_zero _ => Some (S754_zero false)
  | S754_nan => None
  | _ => Some x
  end.

(** Values that are no NaN and no func other than nil, and whose fields
    are none either, at every depth of structs.  What a slice holds does
    not count. *)
Fixpoint regular (v : Value) : bool :=
  match v with
  | VFloat64 S754_nan => false
  | VFunc _ (Some _) => false
  | VStruct _ fs => forallb regular fs
  | _ => true
  end.

(** ** The matching of [SameElements] *)

(** [reflect.DeepEqual(a, b)] with [a] from the expected and [b] from the
    actual sequence. *)
Definition matches (a b : Value) : Prop := reflect.DeepEqual a b = true.

(** The elements of [actualSlice], counted from [i0], whose index is not
    yet marked in [used]. *)
Fixpoint avail (used : gmap nat bool) (i0 : nat) (actualSlice : list Value)
  : list Value :=
  match actualSlice with
  | [] => []
  | b :: rest =>
      if used_at used i0 then avail used (S i0) rest
      else b :: avail used (S i0) rest
  end.

(** The expected elements the outer loop finds no partner for, in order. *)
Fixpoint unmatched (used : gmap nat bool) (actualSlice expectedSlice : list Value)
  : list Value :=
  match expectedSlice with
  | [] => []
  | a :: rest =>
      match scan used a 0 actualSlice with
      | Some i => unmatched (<[i := true]> used) actualSlice rest
      | None => a :: unmatched used actualSlice rest
      end
  end.

(** The marks the outer loop has set once it is through [expectedSlice]. *)
Fixpoint marked (used : gmap nat bool) (actualSlice expectedSlice : list Value)
  : gmap nat bool :=
  match expectedSlice with
  | [] => used
  | a :: rest =>
      match scan used a 0 actualSlice with
      | Some i => marked (<[i := true]> used) actualSlice rest
      | None => marked used actualSlice rest
      end
  end.

(** A one-to-one pairing of [es] with the elements of [l]: some
    rearrangement of [l] equals [es] position by position. *)
Definition pairing (es l : list Value) : Prop :=
  exists l', Permutation l l' /\ List.Forall2 matches es l'.

(** The kinds [reflect.Value.Len] panics on, whatever the value: the nil
    interface, booleans, numbers, funcs and structs. *)
Definition has_no_length (v : Value) : bool :=
  match v with
  | VNil | VBool _ | VInt _ _ | VFloat64 _ | VFunc _ _ | VStruct _ _ => true
  | _ => false
  end.

(** ** Calls on the Fataler *)

(** The [Helper] call [helper(t).Helper()] leaves in the log. *)
Definition helper_events (t : Fataler) : list Event :=
  if has_Helper t then [Helper] else [].

(** How a call of [t.Fatal] ends. *)
Definition after_Fatal (t : Fataler) : Res unit :=
  if Fatal_returns t then Ok tt else Goexit.

(** A sequence of [fatal] calls with nothing leaving in between: all of
    them happen when [Fatal] returns, only the first when it does not.
    [pre] is what each [fatal] logs before its [Fatal]. *)
Fixpoint fatals (t : Fataler) (pre : list Event) (msgs : list string)
         (log : list Event) : list Event * Res unit :=
  match msgs with
  | [] => (log, Ok tt)
  | m :: msgs' =>
      if Fatal_returns t then fatals t pre msgs' (log ++ pre ++ [Fatal m])%list
      else ((log ++ pre ++ [Fatal m])%list, Goexit)
  end.

(** ** Locations and reports *)

(** The frames of [s] up to and including its first test frame; all of [s]
    when it has none. *)
Fixpoint through_test (s : list Frame) : list Frame :=
  match s with
  | [] => []
  | f :: s' => if StackWalk.isTestFrame f then [f] else f :: through_test s'
  end.

Section Reports.
Context `{Collaborators}.

(** What [cond.String] appends for the extras. *)
Definition with_extras (body : string) (extra : list Value) : string :=
  if (length extra =? 0)%nat then body else body +:+ nl +:+ tsdump extra.

(** The text [pstack] computes for the stack [first :: rest]. *)
Definition location (first : Frame) (rest : list Frame) : string :=
  if StackWalk.isTestFrame first then
    filepath.Base (File first) +:+ ":" +:+ pretty (Line first) +:+ ": "
  else "        " +:+ Stack_String (through_test (first :: rest)) +:+ nl.

(** The message of the stack-walking variant: the backspaces, the
    location, the formatted text and the extras. *)
Definition StackWalk_message (first : Frame) (rest : list Frame)
           (format : string) (args : list Arg) (extra : list Value) : string :=
  with_extras (StackWalk.deleteSelf +:+ location first rest
               +:+ Sprintf format args) extra.

(** The message of the delegating variant: the formatted text and the
    extras. *)
Definition Delegated_message (format : string) (args : list Arg)
           (extra : list Value) : string :=
  with_extras (Sprintf format args) extra.

(** The texts of the two reports of [SameElements]. *)
Definition lengths_text (actual expected : Value) : string :=
  "expected same elements but found slices of different lengths:" +:+ nl
  +:+ "ACTUAL:" +:+ nl +:+ tsdump [actual] +:+ nl +:+ "EXPECTED" +:+ nl
  +:+ tsdump [expected].

Definition missing_text (actual expected a : Value) : string :=
  "missing expected element:" +:+ nl +:+ "ACTUAL:" +:+ nl +:+ tsdump [actual]
  +:+ nl +:+ "EXPECTED:" +:+ nl +:+ tsdump [expected] +:+ nl
  +:+ "MISSING ELEMENT" +:+ nl +:+ tsdump [a].

(** The messages of the delegating [SameElements] on the sequences [xs]
    (actual) and [ys] (expected). *)
Definition Delegated_reports (actual expected : Value) (extra : list Value)
           (xs ys : list Value) : list string :=
  ((if negb (length xs =? length ys)%nat
    then [with_extras (lengths_text actual expected) extra] else [])
   ++ map (fun a => with_extras (missing_text actual expected a) extra)
          (unmatched ∅ xs ys))%list.

(** A text as the stack-walking variant dispatches it when called from
    [first]: the backspaces, the location, the text and the extras. *)
Definition StackWalk_text (first : Frame) (rest : list Frame)
           (text : string) (extra : list Value) : string :=
  with_extras (StackWalk.deleteSelf +:+ location first rest +:+ text) extra.

(** The messages of the stack-walking [SameElements] called from [first]
    on the sequences [xs] (actual) and [ys] (expected). *)
Definition StackWalk_reports (first : Frame) (rest : list Frame)
           (actual expected : Value) (extra : list Value)
           (xs ys : list Value) : list string :=
  ((if negb (length xs =? length ys)%nat
    then [StackWalk_text first rest (lengths_text actual expected) extra]
    else [])
   ++ map (fun a => StackWalk_text first rest (missing_text actual expected a) extra)
          (unmatched ∅ xs ys))%list.

(** The text of the report of [DeepEqual] and [PanicDeepEqual]: the actual
    value as the printer dumps it, the expected value trimmed. *)
Definition equal_text (actual expected : Value) : string :=
  "expected these to be equal:" +:+ nl +:+ "ACTUAL:" +:+ nl +:+ Sdump [actual]
  +:+ nl +:+ "EXPECTED:" +:+ nl +:+ tsdump [expected].

(** The report of [Nil] on a value that is not nil; [shown] is the error as
    the variant prints it.  The separator is a line break when the dump
    spans several lines. *)
Definition Nil_text (shown : GoError -> string) (v : Value) : string :=
  match as_error v with
  | Some e => unexpected_error_text (shown e)
  | None =>
      "expected nil value but got:"
      +:+ (if strings.Contains (tsdump [v]) nl then nl else " ")
      +:+ tsdump [v]
  end.

End Reports.

(** ** Calls of the package *)

(** A call of one of the exported predicates of [ensure.go], without its
    Fataler and its extras. *)
Inductive StackWalk_call : Type :=
| SW_Err (err : option GoError) (re : option Regexp)
| SW_DeepEqual (actual expected : Value)
| SW_NotDeepEqual (actual expected : Value)
| SW_Subset (actual subset : Value)
| SW_Nil (v : Value)
| SW_NotNil (v : Value)
| SW_True (v : bool)
| SW_StringContains (s substr : string)
| SW_StringDoesNotContain (s substr : string)
| SW_SameElements (actual expected : Value).

(** A call of one of the exported predicates of the delegating variant;
    [in_flight] is the panic a deferred [PanicDeepEqual] runs under. *)
Inductive Delegated_call : Type :=
| D_Err (err : option GoError) (re : option Regexp)
| D_DeepEqual (actual expected : Value)
| D_NotDeepEqual (actual expected : Value)
| D_Nil (v : Value)
| D_NotNil (v : Value)
| D_True (v : bool)
| D_False (v : bool)
| D_StringContains (s substr : string)
| D_StringDoesNotContain (s substr : string)
| D_SameElements (actual expected : Value)
| D_PanicDeepEqual (in_flight : option Value) (expected : Value).

Section Calls.
Context `{Collaborators}.

Definition StackWalk_invoke (callers : list Frame) (t : Fataler)
           (c : StackWalk_call) (a : list Value) : M unit :=
  match c with
  | SW_Err err re => StackWalk.Err callers t err re a
  | SW_DeepEqual actual expected => StackWalk.DeepEqual callers t actual expected a
  | SW_NotDeepEqual actual expected =>
      StackWalk.NotDeepEqual callers t actual expected a
  | SW_Subset actual subset => StackWalk.Subset callers t actual subset a
  | SW_Nil v => StackWalk.Nil callers t v a
  | SW_NotNil v => StackWalk.NotNil callers t v a
  | SW_True v => StackWalk.True_ callers t v a
  | SW_StringContains s substr => StackWalk.StringContains callers t s substr a
  | SW_StringDoesNotContain s substr =>
      StackWalk.StringDoesNotContain callers t s substr a
  | SW_SameElements actual expected =>
      StackWalk.SameElements callers t actual expected a
  end.

Definition Delegated_invoke (t : Fataler) (c : Delegated_call)
           (a : list Value) : M unit :=
  match c with
  | D_Err err re => Delegated.Err t err re a
  | D_DeepEqual actual expected => Delegated.DeepEqual t actual expected a
  | D_NotDeepEqual actual expected => Delegated.NotDeepEqual t actual expected a
  | D_Nil v => Delegated.Nil t v a
  | D_NotNil v => Delegated.NotNil t v a
  | D_True v => Delegated.True_ t v a
  | D_False v => Delegated.False_ t v a
  | D_StringContains s substr => Delegated.StringContains t s substr a
  | D_StringDoesNotContain s substr =>
      Delegated.StringDoesNotContain t s substr a
  | D_SameElements actual expected => Delegated.SameElements t actual expected a
  | D_PanicDeepEqual in_flight expected =>
      Delegated.PanicDeepEqual in_flight t expected a
  end.

End Calls.

(** Every [Fatal] of the log comes right after a [Helper]; [marked] tells
    whether the event before the log was a [Helper]. *)
Fixpoint Fatal_after_Helper (marked : bool) (log : list Event) : bool :=
  match log with
  | [] => true
  | Helper :: log' => Fatal_after_Helper true log'
  | Fatal _ :: log' => marked && Fatal_after_Helper false log'
  end.

(** ** A concrete set of collaborators *)

(** A printer in the style of [spew] (type in parentheses, lengths, one
    nested element per line), a stack renderer with one [file:line name] per
    line and deep equality as the subset check.  They let the predicates be
    evaluated on concrete inputs. *)
Module Plain.

Definition join_lines (ls : list string) : string :=
  fold_right (fun l acc => if String.eqb acc "" then l else l +:+ nl +:+ acc) "" ls.

Definition float_text (x : spec_float) : string :=
  match x with
  | S754_zero false => "0"
  | S754_zero true => "-0"
  | S754_infinity false => "+Inf"
  | S754_infinity true => "-Inf"
  | S754_nan => "NaN"
  | S754_finite s m e =>
      (if s then "-" else "") +:+ pretty (Zpos m) +:+ "p" +:+ pretty e
  end.

Fixpoint dump (indent : string) (v : Value) : string :=
  let block (items : list Value) : string :=
    (fix lines (l : list Value) : string :=
       match l with
       | [] => ""
       | [x] => indent +:+ " " +:+ dump (indent +:+ " ") x +:+ nl
       | x :: l' => indent +:+ " " +:+ dump (indent +:+ " ") x +:+ "," +:+ nl
                    +:+ lines l'
       end) items in
  match v with
  | VNil => "(interface {}) <nil>"
  | VBool b => "(bool) " +:+ (if b then "true" else "false")
  | VInt ty n => "(" +:+ ty +:+ ") " +:+ pretty n
  | VFloat64 x => "(float64) " +:+ float_text x
  | VString s =>
      "(string) (len=" +:+ pretty (String.length s) +:+ ") " +:+ dq +:+ s +:+ dq
  | VError e => "(" +:+ etype e +:+ ")(" +:+ Error e +:+ ")"
  | VNilPtr ty _ => "(" +:+ ty +:+ ")(<nil>)"
  | VFunc ty None => "(" +:+ ty +:+ ") <nil>"
  | VFunc ty (Some _) => "(" +:+ ty +:+ ") <func>"
  | VSlice ty None => "(" +:+ ty +:+ ") <nil>"
  | VSlice ty (Some (_, xs)) =>
      "(" +:+ ty +:+ ") (len=" +:+ pretty (length xs) +:+ " cap="
      +:+ pretty (length xs) +:+ ") {" +:+ nl +:+ block xs +:+ indent +:+ "}"
  | VStruct ty fs => "(" +:+ ty +:+ ") {" +:+ nl +:+ block fs +:+ indent +:+ "}"
  end.

Definition sdump (a : list Value) : string :=
  fold_right (fun v acc => dump "" v +:+ nl +:+ acc) "" a.

Definition frame_text (f : Frame) : string :=
  File f +:+ ":" +:+ pretty (Line f) +:+ " " +:+ Name f.

Definition stack_string (s : list Frame) : string :=
  join_lines (map frame_text s).

Definition collaborators : Collaborators :=
  {| Sdump := sdump;
     Stack_String := stack_string;
     subset_Check := reflect.DeepEqual |}.

End Plain.

(** The Fatalers of the tests and of the test runner, and inputs of the
    tests. *)
Definition capture : Fataler := mkFataler true false.

Definition testing_T : Fataler := mkFataler false true.

Definition ints (array : positive) (l : list Z) : Value :=
  VSlice "[]int" (Some (array, map (VInt "int") l)).

Definition interfaces (array : positive) (l : list Value) : Value :=
  VSlice "[]interface {}" (Some (array, l)).

Definition test_frame : Frame :=
  mkFrame "github.com/facebookgo/ensure/ensure_test.go" 245 "TestSameElementsRepeated".

Definition indirect_frame : Frame :=
  mkFrame "github.com/facebookgo/ensure/ensure_test.go" 188 "indirect".

Definition indirect_test_frame : Frame :=
  mkFrame "github.com/facebookgo/ensure/ensure_test.go" 195
          "TestIndirectStackTrace".

(** * Properties *)

(** ** Strings *)

Lemma HasPrefix_spec s prefix :
  strings.HasPrefix s prefix = true <-> exists post, s = prefix +:+ post.
Proof.
  revert s; induction prefix as [|p prefix IH]; intros s; simpl.
  - split; [intros _; now exists s | reflexivity].
  - destruct s as [|c s]; simpl.
    + split; [discriminate | intros [post Hp]; discriminate].
    + rewrite andb_true_iff, Ascii.eqb_eq, IH. split.
      * intros [-> [post ->]]. now exists post.
      * intros [post Hp]. injection Hp as -> ->. split; [reflexivity | now exists post].
Qed.

Lemma Contains_spec s sub :
  strings.Contains s sub = true <-> is_substring sub s.
Proof.
  unfold is_substring. induction s as [|c s IH]; simpl.
  - rewrite orb_false_r, HasPrefix_spec. split.
    + intros [post Hp]. now exists "", post.
    + intros [[|? pre] [post Hp]]; simpl in Hp; [now exists post | discriminate].
  - rewrite orb_true_iff, HasPrefix_spec, IH. split.
    + intros [[post Hp] | (pre & post & Hp)].
      * now exists "", post.
      * exists (String c pre), post. simpl. now rewrite Hp.
    + intros [[|d pre] [post Hp]]; simpl in Hp.
      * left. now exists post.
      * right. injection Hp as -> ->. now exists pre, post.
Qed.

Lemma last_byte_None s : last_byte s = None -> s = "".
Proof.
  destruct s as [|c s]; simpl; [reflexivity|].
  now destruct (last_byte s).
Qed.

Lemma init_bytes_None s : init_bytes s = None <-> s = "".
Proof.
  destruct s as [|c s]; simpl; [tauto|].
  destruct (init_bytes s); split; discriminate.
Qed.

(** ** Runes and white space *)

Lemma append_nil_r (s : string) : s +:+ "" = s.
Proof.
  induction s as [|c s IH]; [reflexivity|].
  change (String c (s +:+ "") = String c s). now rewrite IH.
Qed.

Lemma append_assoc (a b c : string) : (a +:+ b) +:+ c = a +:+ b +:+ c.
Proof.
  induction a as [|x a IH]; [reflexivity|].
  change (String x ((a +:+ b) +:+ c) = String x (a +:+ b +:+ c)). now rewrite IH.
Qed.

Lemma slice_split i s : slice_to i s +:+ slice_from i s = s.
Proof.
  revert s; induction i as [|i IH]; intros [|c s]; try reflexivity.
  cbn [slice_to slice_from].
  change (String c (slice_to i s +:+ slice_from i s) = String c s).
  now rewrite IH.
Qed.

Lemma length_slice_to i s :
  (i <= String.length s)%nat -> String.length (slice_to i s) = i.
Proof.
  revert s; induction i as [|i IH]; intros [|c s]; simpl; try lia.
  intros Hi. rewrite IH; lia.
Qed.

Lemma length_append (a b : string) :
  String.length (a +:+ b) = (String.length a + String.length b)%nat.
Proof.
  induction a as [|c a IH]; [reflexivity|].
  change (String c a +:+ b) with (String c (a +:+ b)).
  cbn [String.length]. now rewrite IH.
Qed.

Lemma first_lead b sz lo hi :
  utf8.first b = utf8.lead_byte sz lo hi -> (2 <= sz <= 4)%nat.
Proof.
  unfold utf8.first.
  repeat match goal with
         | |- context [if ?c then _ else _] => destruct c
         end; intros [= <- _ _]; lia || discriminate.
Qed.

Ltac decode_cases :=
  repeat match goal with
         | |- context [match utf8.first ?b with _ => _ end] =>
             let E := fresh "Ef" in destruct (utf8.first b) as [| |? ? ?] eqn:E
         | H : context [match utf8.first ?b with _ => _ end] |- _ =>
             let E := fresh "Ef" in destruct (utf8.first b) as [| |? ? ?] eqn:E
         | |- context [if ?c then _ else _] =>
             let E := fresh "E" in destruct c eqn:E
         | H : context [if ?c then _ else _] |- _ =>
             let E := fresh "E" in destruct c eqn:E
         end.

Lemma Decode_size s r size :
  utf8.DecodeRuneInString s = (r, size) -> s <> "" ->
  (1 <= size <= String.length s)%nat.
Proof.
  destruct s as [|c0 [|c1 [|c2 [|c3 s]]]]; [easy|..]; intros Hd _; revert Hd;
    unfold utf8.DecodeRuneInString; decode_cases;
    intros [= <- <-]; cbn [String.length]; lia.
Qed.

Lemma IsSpace_RuneError : unicode.IsSpace utf8.RuneError = false.
Proof. reflexivity. Qed.

(** Decoding looks at the bytes of the rune only. *)
Lemma Decode_own_bytes s r size :
  utf8.DecodeRuneInString s = (r, size) -> r <> utf8.RuneError ->
  utf8.DecodeRuneInString (slice_to size s) = (r, size).
Proof.
  destruct s as [|c0 [|c1 [|c2 [|c3 s]]]]; intros Hd; revert Hd;
    unfold utf8.DecodeRuneInString at 1; decode_cases;
    intros [= <- <-] Hr; try easy;
    cbn [slice_to]; unfold utf8.DecodeRuneInString; rewrite ?Ef;
    cbn [String.length] in *;
    try (apply first_lead in Ef);
    repeat match goal with
           | H : (_ <=? _)%nat = _ |- _ =>
               first [apply Nat.leb_le in H | apply Nat.leb_gt in H]
           | H : (_ <? _)%nat = _ |- _ =>
               first [apply Nat.ltb_lt in H | apply Nat.ltb_ge in H]
           end;
    repeat match goal with
           | |- context [(?a <? ?b)%nat] =>
               replace (a <? b)%nat with false by (symmetry; apply Nat.ltb_ge; lia)
           | |- context [(?a <=? ?b)%nat] =>
               first [ replace (a <=? b)%nat with true by (symmetry; apply Nat.leb_le; lia)
                     | replace (a <=? b)%nat with false by (symmetry; apply Nat.leb_gt; lia) ]
           end;
    rewrite ?E0, ?E1, ?E2, ?E3, ?E4, ?E5, ?E6; try reflexivity; try lia.
Qed.

(** A prefix of a string begins with the rune the string begins with,
    unless it ends inside that rune. *)
Lemma Decode_prefix p q :
  utf8.DecodeRuneInString p = utf8.DecodeRuneInString (p +:+ q)
  \/ (utf8.DecodeRuneInString p).1 = utf8.RuneError.
Proof.
  destruct p as [|c0 [|c1 [|c2 [|c3 p]]]]; [now right|..];
    repeat match goal with
           | |- context [String ?c ?a +:+ ?b] =>
               change (String c a +:+ b) with (String c (a +:+ b))
           end;
    change ("" +:+ q) with q;
    unfold utf8.DecodeRuneInString;
    destruct (utf8.first (byte_value c0)) as [| |sz lo hi] eqn:Ef;
    try (now left); try (now right);
    apply first_lead in Ef; cbn [String.length];
    destruct q as [|d0 [|d1 [|d2 q]]];
    repeat match goal with
           | |- context [(?a <? ?b)%nat] =>
               let E := fresh "E" in
               destruct (a <? b)%nat eqn:E;
               [apply Nat.ltb_lt in E | apply Nat.ltb_ge in E]
           | |- context [(?a <=? ?b)%nat] =>
               let E := fresh "E" in
               destruct (a <=? b)%nat eqn:E;
               [apply Nat.leb_le in E | apply Nat.leb_gt in E]
           end; cbn [String.length] in *; try lia;
    try (now right); try (now left);
    repeat match goal with
           | |- context [if ?c then _ else _] => destruct c
           end; try (now right); try (now left).
Qed.

Lemma get_last_cons c s :
  String.get (String.length s) (String c s) = last_byte (String c s).
Proof.
  revert c; induction s as [|d s IH]; intros c; [reflexivity|].
  change (String.get (String.length s) (String d s)
          = match last_byte (String d s) with None => Some c | Some x => Some x end).
  rewrite IH.
  destruct (last_byte (String d s)) eqn:El; [reflexivity|].
  now apply last_byte_None in El.
Qed.

Lemma get_last s :
  String.get (String.length s - 1) s = last_byte s.
Proof.
  destruct s as [|c s]; [reflexivity|]. cbn [String.length].
  replace (S (String.length s) - 1)%nat with (String.length s) by lia.
  apply get_last_cons.
Qed.

Lemma slice_from_last_cons c s x :
  last_byte (String c s) = Some x ->
  slice_from (String.length s) (String c s) = String x "".
Proof.
  revert c; induction s as [|d s IH]; intros c.
  - cbn. now intros [= ->].
  - change (last_byte (String c (String d s)))
      with (match last_byte (String d s) with None => Some c | Some y => Some y end).
    destruct (last_byte (String d s)) as [y|] eqn:El;
      [|now apply last_byte_None in El].
    intros [= ->]. cbn [String.length slice_from]. now apply IH.
Qed.

Lemma slice_from_last s c :
  last_byte s = Some c -> slice_from (String.length s - 1) s = String c "".
Proof.
  destruct s as [|d s]; [discriminate|]. cbn [String.length].
  replace (S (String.length s) - 1)%nat with (String.length s) by lia.
  apply slice_from_last_cons.
Qed.

Lemma rune_start_before_le s lim n start :
  (utf8.rune_start_before s lim n start <= start)%Z.
Proof.
  revert start; induction n as [|n IH]; intros start; cbn [utf8.rune_start_before];
    [lia|].
  destruct (start <? lim)%Z; [lia|].
  destruct (String.get (Z.to_nat start) s) as [c|]; [|lia].
  destruct (utf8.RuneStart (byte_value c)); [lia|].
  specialize (IH (start - 1)%Z). lia.
Qed.

(** The last rune of a string, when it is not the error rune, is the rune
    its last bytes decode to. *)
Lemma DecodeLast_spec s r size :
  utf8.DecodeLastRuneInString s = (r, size) -> s <> "" ->
  (1 <= size <= String.length s)%nat
  /\ (r <> utf8.RuneError ->
      utf8.DecodeRuneInString (slice_from (String.length s - size) s) = (r, size)).
Proof.
  intros Hd Hne. assert (Hl : (1 <= String.length s)%nat)
    by (destruct s; [contradiction | cbn [String.length]; lia]).
  revert Hd. unfold utf8.DecodeLastRuneInString.
  replace (Z.to_nat (Z.of_nat (String.length s) - 1))
    with (String.length s - 1)%nat by lia.
  rewrite get_last. destruct (last_byte s) as [c|] eqn:El;
    [|now apply last_byte_None in El].
  destruct (byte_value c <? utf8.RuneSelf)%Z eqn:Ec.
  - intros [= <- <-]. split; [lia|]. intros _.
    rewrite (slice_from_last _ _ El). unfold utf8.DecodeRuneInString, utf8.first.
    unfold utf8.RuneSelf in Ec. now rewrite Ec.
  - set (start := Z.max 0 _).
    assert (Hs : (0 <= start <= Z.of_nat (String.length s) - 1)%Z).
    { subst start.
      pose proof (rune_start_before_le s
        (Z.max 0 (Z.of_nat (String.length s) - Z.of_nat utf8.UTFMax))
        utf8.UTFMax (Z.of_nat (String.length s) - 2)). lia. }
    destruct (utf8.DecodeRuneInString (slice_from (Z.to_nat start) s))
      as [r' size'] eqn:Ed.
    destruct (start + Z.of_nat size' =? Z.of_nat (String.length s))%Z eqn:Ee.
    + apply Z.eqb_eq in Ee. intros [= <- <-]. split; [lia|]. intros _.
      now replace (String.length s - size')%nat with (Z.to_nat start) by lia.
    + intros [= <- <-]. split; [lia | easy].
Qed.

Lemma DecodeLast_ascii s c :
  last_byte s = Some c -> (byte_value c < utf8.RuneSelf)%Z ->
  utf8.DecodeLastRuneInString s = (byte_value c, 1%nat).
Proof.
  intros El Hc. unfold utf8.DecodeLastRuneInString.
  replace (Z.to_nat (Z.of_nat (String.length s) - 1))
    with (String.length s - 1)%nat by lia.
  rewrite get_last, El. apply Z.ltb_lt in Hc. now rewrite Hc.
Qed.

Lemma DecodeLast_empty : utf8.DecodeLastRuneInString "" = (utf8.RuneError, 0%nat).
Proof. reflexivity. Qed.

Lemma white_space_app a b : white_space a -> white_space b -> white_space (a +:+ b).
Proof.
  induction 1 as [|w rest r Hw Hr _ IH]; intros Hb; [exact Hb|].
  rewrite append_assoc. econstructor; eauto.
Qed.

Lemma length_slice_from i s :
  String.length (slice_from i s) = (String.length s - i)%nat.
Proof.
  revert s; induction i as [|i IH]; intros [|c s]; cbn [slice_from String.length];
    try lia. apply IH.
Qed.

(** What [TrimLeftFunc] removes is white space, and what it leaves does
    not begin with any. *)
Lemma trimLeft_split n s :
  exists lead, s = lead +:+ strings.trimLeft n unicode.IsSpace s
               /\ white_space lead.
Proof.
  revert s; induction n as [|n IH]; intros s.
  - exists "". split; [now destruct s | constructor].
  - destruct s as [|c s]; [exists ""; split; [reflexivity | constructor]|].
    cbn [strings.trimLeft].
    destruct (utf8.DecodeRuneInString (String c s)) as [r size] eqn:Ed.
    destruct (unicode.IsSpace r) eqn:Er;
      [|exists ""; split; [reflexivity | constructor]].
    destruct (IH (slice_from size (String c s))) as (lead & Hs & Hl).
    exists (slice_to size (String c s) +:+ lead). split.
    + rewrite append_assoc, <- Hs. now rewrite slice_split.
    + pose proof (Decode_size _ _ _ Ed ltac:(easy)) as Hsz.
      econstructor; [|exact Er|exact Hl].
      rewrite length_slice_to by lia. apply Decode_own_bytes; [exact Ed|].
      intros ->. discriminate.
Qed.

Lemma trimLeft_first n s :
  (String.length s <= n)%nat ->
  unicode.IsSpace (utf8.DecodeRuneInString (strings.trimLeft n unicode.IsSpace s)).1
  = false.
Proof.
  revert s; induction n as [|n IH]; intros s Hn.
  - destruct s; [reflexivity | cbn [String.length] in Hn; lia].
  - destruct s as [|c s]; [reflexivity|]. cbn [strings.trimLeft].
    destruct (utf8.DecodeRuneInString (String c s)) as [r size] eqn:Ed.
    destruct (unicode.IsSpace r) eqn:Er; [|now rewrite Ed].
    pose proof (Decode_size _ _ _ Ed ltac:(easy)) as Hsz.
    apply IH. rewrite length_slice_from. lia.
Qed.

Lemma trimRight_split n s :
  exists trail, s = strings.trimRight n unicode.IsSpace s +:+ trail
                /\ white_space trail.
Proof.
  revert s; induction n as [|n IH]; intros s.
  - exists "". split; [destruct s; cbn [strings.trimRight]; now rewrite ?append_nil_r
                      | constructor].
  - destruct s as [|c s]; [exists ""; split; [reflexivity | constructor]|].
    cbn [strings.trimRight].
    destruct (utf8.DecodeLastRuneInString (String c s)) as [r size] eqn:Ed.
    destruct (unicode.IsSpace r) eqn:Er;
      [|exists ""; split; [now rewrite append_nil_r | constructor]].
    destruct (DecodeLast_spec _ _ _ Ed ltac:(easy)) as [Hsz Hdec].
    set (k := (String.length (String c s) - size)%nat) in *.
    destruct (IH (slice_to k (String c s))) as (trail & Hs & Hl).
    exists (trail +:+ slice_from k (String c s)). split.
    + rewrite <- append_assoc, <- Hs. now rewrite slice_split.
    + apply white_space_app; [exact Hl|].
      rewrite <- (append_nil_r (slice_from k (String c s))).
      econstructor; [|exact Er|constructor].
      rewrite length_slice_from. subst k.
      replace (String.length (String c s) - (String.length (String c s) - size))%nat
        with size by lia.
      apply Hdec. intros ->. discriminate.
Qed.

Lemma trimRight_last n s :
  (String.length s <= n)%nat ->
  unicode.IsSpace
    (utf8.DecodeLastRuneInString (strings.trimRight n unicode.IsSpace s)).1 = false.
Proof.
  revert s; induction n as [|n IH]; intros s Hn.
  - destruct s; [reflexivity | cbn [String.length] in Hn; lia].
  - destruct s as [|c s]; [reflexivity|]. cbn [strings.trimRight].
    destruct (utf8.DecodeLastRuneInString (String c s)) as [r size] eqn:Ed.
    destruct (unicode.IsSpace r) eqn:Er; [|now rewrite Ed].
    destruct (DecodeLast_spec _ _ _ Ed ltac:(easy)) as [Hsz _].
    apply IH. rewrite length_slice_to by lia. lia.
Qed.

(** [strings.TrimSpace] removes white space and leaves a string with none
    at its ends. *)
Lemma TrimSpace_spec s :
  (exists lead trail, s = lead +:+ strings.TrimSpace s +:+ trail
                      /\ white_space lead /\ white_space trail)
  /\ unicode.IsSpace (utf8.DecodeRuneInString (strings.TrimSpace s)).1 = false
  /\ unicode.IsSpace (utf8.DecodeLastRuneInString (strings.TrimSpace s)).1 = false.
Proof.
  unfold strings.TrimSpace, strings.TrimFunc, strings.TrimRightFunc.
  set (t := strings.TrimLeftFunc s unicode.IsSpace).
  destruct (trimLeft_split (String.length s) s) as (lead & Hs & Hl).
  fold (strings.TrimLeftFunc s unicode.IsSpace) in Hs. fold t in Hs.
  destruct (trimRight_split (String.length t) t) as (trail & Ht & Hr).
  split; [|split].
  - exists lead, trail. now rewrite <- Ht.
  - pose proof (trimLeft_first (String.length s) s ltac:(lia)) as Hf.
    fold (strings.TrimLeftFunc s unicode.IsSpace) in Hf. fold t in Hf.
    destruct (Decode_prefix (strings.trimRight (String.length t) unicode.IsSpace t)
                            trail) as [He|He].
    + now rewrite He, <- Ht.
    + now rewrite He.
  - apply trimRight_last. lia.
Qed.

Lemma TrimSpace_last s c :
  last_byte (strings.TrimSpace s) = Some c ->
  (byte_value c < utf8.RuneSelf)%Z -> unicode.IsSpace (byte_value c) = false.
Proof.
  intros El Hc. destruct (TrimSpace_spec s) as (_ & _ & Hl).
  now rewrite (DecodeLast_ascii _ _ El Hc) in Hl.
Qed.

(** ** Line breaks in a trimmed string *)

Lemma Contains_byte_cons c d s :
  strings.Contains (String d s) (String c "")
  = Ascii.eqb d c || strings.Contains s (String c "").
Proof.
  simpl. destruct s; simpl; now rewrite ?andb_true_r.
Qed.

(** Dropping a last byte other than [c] does not change whether [c]
    occurs. *)
Lemma Contains_init_bytes s h c d :
  init_bytes s = Some h -> last_byte s = Some d -> d <> c ->
  strings.Contains h (String c "") = strings.Contains s (String c "").
Proof.
  revert h; induction s as [|e s IH]; intros h; [discriminate|].
  rewrite Contains_byte_cons. simpl.
  destruct (init_bytes s) as [r|] eqn:Ei.
  - intros [= <-]. destruct (last_byte s) as [x|] eqn:El.
    + intros [= ->] Hne. rewrite Contains_byte_cons.
      now rewrite (IH r eq_refl eq_refl Hne).
    + apply last_byte_None in El. subst s. discriminate.
  - apply init_bytes_None in Ei. subst s. simpl.
    intros [= <-] [= ->] Hne.
    destruct (Ascii.eqb_spec d c); [contradiction | reflexivity].
Qed.

(** What [Nil] tests on [vs[:len(vs)-1]] is whether the trimmed dump has a
    line break at all: a trimmed string does not end in one. *)
Lemma TrimSpace_init_multiline s h :
  init_bytes (strings.TrimSpace s) = Some h ->
  strings.Contains h nl = strings.Contains (strings.TrimSpace s) nl.
Proof.
  intros Hi. destruct (last_byte (strings.TrimSpace s)) as [d|] eqn:El.
  - apply (Contains_init_bytes _ _ _ d Hi El).
    intros ->. now apply TrimSpace_last in El.
  - apply last_byte_None in El. rewrite El in Hi. discriminate.
Qed.

(** ** Structural equality *)

Lemma DeepEqual_slice ta tb p q xs ys :
  reflect.DeepEqual (VSlice ta (Some (p, xs))) (VSlice tb (Some (q, ys)))
  = String.eqb ta tb
    && (reflect.identical (VSlice ta (Some (p, xs))) (VSlice tb (Some (q, ys)))
        || all2 reflect.DeepEqual xs ys).
Proof. reflexivity. Qed.

Lemma DeepEqual_struct ta tb xs ys :
  reflect.DeepEqual (VStruct ta xs) (VStruct tb ys)
  = String.eqb ta tb && all2 reflect.DeepEqual xs ys.
Proof. reflexivity. Qed.

Lemma identical_slice ta tb p q xs ys :
  reflect.identical (VSlice ta (Some (p, xs))) (VSlice tb (Some (q, ys)))
  = String.eqb ta tb && (Pos.eqb p q && all2 reflect.identical xs ys).
Proof. reflexivity. Qed.

Lemma identical_struct ta tb xs ys :
  reflect.identical (VStruct ta xs) (VStruct tb ys)
  = String.eqb ta tb && all2 reflect.identical xs ys.
Proof. reflexivity. Qed.

Lemma all2_sym f xs ys :
  Forall (fun x => forall y, f x y = f y x) xs -> all2 f xs ys = all2 f ys xs.
Proof.
  intros Hs; revert ys; induction Hs as [|x xs Hx _ IH]; intros [|y ys]; simpl;
    try reflexivity.
  now rewrite Hx, IH.
Qed.

Lemma all2_trans f xs ys zs :
  Forall (fun x => forall y z, f x y = true -> f y z = true -> f x z = true) xs ->
  all2 f xs ys = true -> all2 f ys zs = true -> all2 f xs zs = true.
Proof.
  intros Hs; revert ys zs; induction Hs as [|x xs Hx _ IH];
    intros [|y ys] [|z zs]; simpl; try easy.
  rewrite !andb_true_iff. intros [Hxy Hr] [Hyz Hr']. eauto.
Qed.

Lemma all2_refl f xs :
  Forall (fun x => f x x = true) xs -> all2 f xs xs = true.
Proof.
  induction 1 as [|x xs Hx _ IH]; simpl; [reflexivity|]. now rewrite Hx, IH.
Qed.


Lemma all2_eq f xs ys :
  Forall (fun x => forall y, f x y = true <-> x = y) xs ->
  all2 f xs ys = true <-> xs = ys.
Proof.
  intros Hs; revert ys; induction Hs as [|x xs Hx _ IH]; intros [|y ys]; simpl;
    try easy.
  rewrite andb_true_iff, Hx, IH. split; [intros [-> ->]; reflexivity|].
  now intros [= -> ->].
Qed.

Lemma SFeqb_class x y :
  SFeqb x y = true <-> exists k, float_class x = Some k /\ float_class y = Some k.
Proof.
  unfold SFeqb.
  destruct x as [[]|[]| |[] m1 e1], y as [[]|[]| |[] m2 e2]; simpl;
    try (split;
         [ first [discriminate | intros _; eexists; split; reflexivity]
         | intros (k & Hx & Hy); congruence ]).
  all: change (Pos.compare_cont Eq m1 m2) with (Pos.compare m1 m2).
  all: destruct (Z.compare_spec e1 e2) as [->|He|He];
       destruct (Pos.compare_spec m1 m2) as [->|Hm|Hm]; simpl;
       (split;
        [ first [discriminate | intros _; eexists; split; reflexivity]
        | intros (k & Hx & Hy);
          first [reflexivity | injection Hx as <-; injection Hy; intros; lia] ]).
Qed.

Lemma SFeqb_sym x y : SFeqb x y = SFeqb y x.
Proof.
  apply eq_true_iff_eq. rewrite !SFeqb_class.
  split; intros (k & ? & ?); eauto.
Qed.

Lemma SFeqb_trans x y z : SFeqb x y = true -> SFeqb y z = true -> SFeqb x z = true.
Proof.
  rewrite !SFeqb_class. intros (k & Hx & Hy) (k' & Hy' & Hz).
  exists k. split; congruence.
Qed.

Lemma eq_error_sym a b : reflect.eq_error a b = reflect.eq_error b a.
Proof.
  unfold reflect.eq_error.
  now rewrite (String.eqb_sym (etype a)), (String.eqb_sym (Error a)),
    (String.eqb_sym (Verbose a)).
Qed.

Lemma eq_error_eq a b : reflect.eq_error a b = true <-> a = b.
Proof.
  unfold reflect.eq_error. rewrite !andb_true_iff, !String.eqb_eq.
  destruct a, b; simpl. split; [intros [[-> ->] ->]; reflexivity | intros [= -> -> ->]; auto].
Qed.

Lemma same_float_eq a b : reflect.same_float a b = true <-> a = b.
Proof.
  destruct a as [s|s| |s m e], b as [s'|s'| |s' m' e']; simpl; try easy;
    rewrite ?andb_true_iff, ?Bool.eqb_true_iff, ?Pos.eqb_eq, ?Z.eqb_eq;
    (split; [intuition congruence | intros [= ]; subst; auto]).
Qed.

Lemma same_option_eq {A} (same : A -> A -> bool) (a b : option A) :
  (forall x y, same x y = true <-> x = y) ->
  reflect.same_option same a b = true <-> a = b.
Proof.
  intros Hs. destruct a, b; simpl; try easy. rewrite Hs.
  split; [now intros -> | now intros [= ->]].
Qed.

(** [reflect.identical] holds between a value and itself only. *)
Lemma identical_eq x y : reflect.identical x y = true <-> x = y.
Proof.
  revert y; induction x as [|b|ty n|f|s|e|ty ae|ty c|ty|ty p xs IH|ty fs IH]
    using Value_nested_ind;
    intros [|b'|ty' n'|f'|s'|e'|ty' ae'|ty' c'|ty' [[q ys]|]|ty' fs']; try easy;
    first
      [ rewrite identical_slice, !andb_true_iff, String.eqb_eq, Pos.eqb_eq,
          (all2_eq _ _ _ IH)
      | rewrite identical_struct, andb_true_iff, String.eqb_eq, (all2_eq _ _ _ IH)
      | simpl;
        rewrite ?andb_true_r, ?andb_false_r, ?andb_true_iff, ?Bool.eqb_true_iff,
          ?String.eqb_eq, ?Z.eqb_eq, ?same_float_eq, ?eq_error_eq,
          ?(same_option_eq _ _ _ String.eqb_eq), ?(same_option_eq _ _ _ Nat.eqb_eq) ];
    (split; [intuition congruence | intros [= ]; subst; auto]).
Qed.

Lemma identical_sym x y : reflect.identical x y = reflect.identical y x.
Proof.
  apply eq_true_iff_eq. rewrite !identical_eq. split; congruence.
Qed.

(** [reflect.DeepEqual] is symmetric. *)
Lemma DeepEqual_sym x y : reflect.DeepEqual x y = reflect.DeepEqual y x.
Proof.
  revert y; induction x as [|b|ty n|f|s|e|ty ae|ty c|ty|ty p xs IH|ty fs IH]
    using Value_nested_ind;
    intros [|b'|ty' n'|f'|s'|e'|ty' ae'|ty' c'|ty' [[q ys]|]|ty' fs'];
    try reflexivity.
  - simpl. now destruct b, b'.
  - simpl. now rewrite (String.eqb_sym ty), (Z.eqb_sym n).
  - apply SFeqb_sym.
  - simpl. apply String.eqb_sym.
  - apply eq_error_sym.
  - simpl. apply String.eqb_sym.
  - simpl. rewrite (String.eqb_sym ty). destruct c, c'; reflexivity.
  - simpl. now rewrite (String.eqb_sym ty).
  - simpl. now rewrite (String.eqb_sym ty).
  - rewrite !DeepEqual_slice, (String.eqb_sym ty), (identical_sym (VSlice ty _)).
    do 2 f_equal. now apply all2_sym.
  - simpl. now rewrite (String.eqb_sym ty).
  - rewrite !DeepEqual_struct, (String.eqb_sym ty). f_equal. now apply all2_sym.
Qed.

(** [reflect.DeepEqual] is transitive. *)
Lemma DeepEqual_trans x y z :
  reflect.DeepEqual x y = true -> reflect.DeepEqual y z = true ->
  reflect.DeepEqual x z = true.
Proof.
  revert y z; induction x as [|b|ty n|f|s|e|ty ae|ty c|ty|ty p xs IH|ty fs IH]
    using Value_nested_ind;
    intros y z Hxy Hyz;
    destruct y as [|b'|ty' n'|f'|s'|e'|ty' ae'|ty' c'|ty' [[q ys]|]|ty' fs'];
    try discriminate Hxy;
    destruct z as [|b''|ty'' n''|f''|s''|e''|ty'' ae''|ty'' c''|ty'' [[q' zs]|]|ty'' fs''];
    try discriminate Hyz; try reflexivity; revert Hxy Hyz;
    rewrite ?DeepEqual_slice, ?DeepEqual_struct;
    try (rewrite !andb_true_iff, !orb_true_iff, !identical_eq, !String.eqb_eq;
         intros [-> [Hxy|Hxy]] [-> [Hyz|Hyz]]; (split; [reflexivity|]);
         [ left; congruence
         | injection Hxy as -> ->; now right
         | injection Hyz as <- <-; now right
         | right; eapply all2_trans; eauto ]; fail);
    simpl; rewrite ?andb_false_r, ?andb_true_r; try discriminate.
  - destruct b, b', b''; easy.
  - rewrite !andb_true_iff, !String.eqb_eq, !Z.eqb_eq. intuition congruence.
  - apply SFeqb_trans.
  - rewrite !String.eqb_eq. congruence.
  - rewrite !eq_error_eq. congruence.
  - rewrite !String.eqb_eq. congruence.
  - rewrite !andb_true_iff, !String.eqb_eq. destruct c, c', c''; intuition congruence.
  - rewrite !String.eqb_eq. congruence.
  - rewrite !andb_true_iff, !String.eqb_eq.
    intros [-> H1] [-> H2]. split; [reflexivity|]. eapply all2_trans; eauto.
Qed.

Lemma SFeqb_refl x : x <> S754_nan -> SFeqb x x = true.
Proof.
  intros Hx. apply SFeqb_class. destruct x; simpl; eauto. contradiction.
Qed.

(** [reflect.DeepEqual] is reflexive on regular values. *)
Lemma DeepEqual_refl v : regular v = true -> reflect.DeepEqual v v = true.
Proof.
  induction v as [|b|ty n|f|s|e|ty ae|ty c|ty|ty p xs IH|ty fs IH]
    using Value_nested_ind; intros Hr;
    try reflexivity.
  - simpl. now destruct b.
  - simpl. now rewrite String.eqb_refl, Z.eqb_refl.
  - simpl. apply SFeqb_refl. intros ->. discriminate.
  - simpl. apply String.eqb_refl.
  - now apply eq_error_eq.
  - simpl. apply String.eqb_refl.
  - simpl. rewrite String.eqb_refl. destruct c; [discriminate | reflexivity].
  - simpl. now rewrite String.eqb_refl.
  - rewrite DeepEqual_slice, String.eqb_refl.
    now rewrite (proj2 (identical_eq _ _) eq_refl).
  - rewrite DeepEqual_struct, String.eqb_refl. simpl in Hr |- *.
    apply all2_refl. rewrite forallb_forall in Hr. rewrite List.Forall_forall in IH |- *.
    intros x Hx. apply IH; [exact Hx|]. apply Hr. exact Hx.
Qed.


(** ** The matching of [SameElements] *)

Lemma used_at_insert_eq used i : used_at (<[i := true]> used) i = true.
Proof. unfold used_at. now rewrite lookup_insert_eq. Qed.

Lemma used_at_insert_ne used i j :
  i <> j -> used_at (<[i := true]> used) j = used_at used j.
Proof. intros Hne. unfold used_at. now rewrite lookup_insert_ne. Qed.

Lemma used_at_empty i : used_at ∅ i = false.
Proof. unfold used_at. now rewrite lookup_empty. Qed.

Lemma avail_empty i0 bs : avail ∅ i0 bs = bs.
Proof.
  revert i0; induction bs as [|b bs IH]; intros i0; simpl; [reflexivity|].
  now rewrite used_at_empty, IH.
Qed.

Lemma avail_insert_lt used i i0 bs :
  (i < i0)%nat -> avail (<[i := true]> used) i0 bs = avail used i0 bs.
Proof.
  revert i0; induction bs as [|b bs IH]; intros i0 Hlt; simpl; [reflexivity|].
  rewrite used_at_insert_ne by lia. now rewrite IH by lia.
Qed.

Lemma scan_ge used a i0 bs i : scan used a i0 bs = Some i -> (i0 <= i)%nat.
Proof.
  revert i0; induction bs as [|b bs IH]; intros i0; simpl; [discriminate|].
  destruct (negb (used_at used i0) && reflect.DeepEqual a b).
  - intros [= ->]. lia.
  - intros Hs. apply IH in Hs. lia.
Qed.

(** A failed scan: no unmarked element equals [a]. *)
Lemma scan_None used a i0 bs :
  scan used a i0 bs = None <->
  List.Forall (fun b => reflect.DeepEqual a b = false) (avail used i0 bs).
Proof.
  revert i0; induction bs as [|b bs IH]; intros i0; simpl.
  - split; [constructor | reflexivity].
  - destruct (used_at used i0) eqn:Hu; simpl; [apply IH|].
    destruct (reflect.DeepEqual a b) eqn:Hab.
    + split; [discriminate|]. intros Hf. inversion Hf; congruence.
    + rewrite IH. split; [now constructor | intros Hf; now inversion Hf].
Qed.

(** A successful scan takes the leftmost unmarked element equal to [a],
    and marking its index removes exactly that element. *)
Lemma scan_Some used a i0 bs i :
  scan used a i0 bs = Some i ->
  exists l1 b l2,
    avail used i0 bs = (l1 ++ b :: l2)%list /\ matches a b /\
    List.Forall (fun x => reflect.DeepEqual a x = false) l1 /\
    avail (<[i := true]> used) i0 bs = (l1 ++ l2)%list.
Proof.
  revert i0; induction bs as [|b bs IH]; intros i0; simpl; [discriminate|].
  destruct (used_at used i0) eqn:Hu; simpl.
  - intros Hs. pose proof (scan_ge _ _ _ _ _ Hs) as Hge.
    destruct (IH _ Hs) as (l1 & b' & l2 & Ha & Hm & Hf & Hi).
    exists l1, b', l2. rewrite used_at_insert_ne, Hu by lia. auto.
  - destruct (reflect.DeepEqual a b) eqn:Hab.
    + intros [= <-]. exists [], b, (avail used (S i0) bs).
      rewrite used_at_insert_eq, avail_insert_lt by lia. repeat split; auto.
    + intros Hs. pose proof (scan_ge _ _ _ _ _ Hs) as Hge.
      destruct (IH _ Hs) as (l1 & b' & l2 & Ha & Hm & Hf & Hi).
      exists (b :: l1), b', l2. rewrite used_at_insert_ne, Hu by lia.
      simpl. rewrite Ha, Hi. repeat split; auto.
Qed.

Lemma matches_swap e a b x : matches e b -> matches a b -> matches a x -> matches e x.
Proof.
  unfold matches. intros Heb Hab Hax.
  apply (DeepEqual_trans e a x); [|exact Hax].
  apply (DeepEqual_trans e b a); [exact Heb|]. now rewrite DeepEqual_sym.
Qed.

(** If a pairing exists, the first expected element has a partner. *)
Lemma pairing_head a es l :
  pairing (a :: es) l -> exists b, In b l /\ matches a b.
Proof.
  intros (l' & Hp & Hf). inversion Hf as [|? x ? l0 Hax Hrest]; subst.
  exists x. split; [|exact Hax].
  apply (Permutation_in x (Permutation_sym Hp)). now left.
Qed.

(** Taking any partner of the first expected element out of the actual
    elements leaves a pairing for the rest: whoever was paired with that
    partner can take the partner of the first instead. *)
Lemma pairing_step a es l1 b l2 :
  pairing (a :: es) (l1 ++ b :: l2) -> matches a b -> pairing es (l1 ++ l2).
Proof.
  intros (l' & Hp & Hf) Hab. inversion Hf as [|? x ? l0 Hax Hrest]; subst.
  assert (Hp' : Permutation (b :: l1 ++ l2) (x :: l0)).
  { etransitivity; [apply Permutation_middle | exact Hp]. }
  assert (Hin : In b (x :: l0)).
  { apply (Permutation_in b Hp'). now left. }
  destruct Hin as [<- | Hin].
  - exists l0. split; [|exact Hrest]. eapply Permutation_cons_inv; exact Hp'.
  - destruct (in_split _ _ Hin) as (m1 & m2 & ->).
    apply Forall2_app_inv_r in Hrest as (f1 & f2' & Hf1 & Hf2 & ->).
    inversion Hf2 as [|e ? f2 ? Heb Hf2']; subst.
    exists (m1 ++ x :: m2)%list. split.
    + apply (Permutation_cons_inv (a := b)).
      etransitivity; [exact Hp'|].
      etransitivity; [apply perm_skip; symmetry; apply Permutation_middle|].
      etransitivity; [apply perm_swap|].
      apply perm_skip. apply Permutation_middle.
    + apply List.Forall2_app; [exact Hf1|]. constructor; [|exact Hf2'].
      exact (matches_swap e a b x Heb Hab Hax).
Qed.

(** The greedy, leftmost-available scan leaves no expected element
    unmatched whenever a one-to-one pairing exists. *)
Lemma pairing_unmatched es : forall used actualSlice,
  pairing es (avail used 0 actualSlice) -> unmatched used actualSlice es = [].
Proof.
  induction es as [|a es IH]; intros used actualSlice Hp; simpl; [reflexivity|].
  destruct (scan used a 0 actualSlice) as [i|] eqn:Hs.
  - destruct (scan_Some _ _ _ _ _ Hs) as (l1 & b & l2 & Ha & Hm & _ & Hi).
    apply IH. rewrite Hi. rewrite Ha in Hp. exact (pairing_step _ _ _ _ _ Hp Hm).
  - exfalso. apply scan_None in Hs.
    destruct (pairing_head _ _ _ Hp) as (b & Hin & Hm).
    rewrite List.Forall_forall in Hs. specialize (Hs b Hin).
    unfold matches in Hm. congruence.
Qed.

(** If no expected element is left unmatched, the expected elements are
    paired one-to-one with some of the unmarked actual elements. *)
Lemma unmatched_nil es : forall used actualSlice,
  unmatched used actualSlice es = [] ->
  exists l' r, Permutation (avail used 0 actualSlice) (l' ++ r)
               /\ List.Forall2 matches es l'.
Proof.
  induction es as [|a es IH]; intros used actualSlice; simpl.
  - intros _. exists [], (avail used 0 actualSlice). split; [reflexivity | constructor].
  - destruct (scan used a 0 actualSlice) as [i|] eqn:Hs; [|discriminate].
    intros Hu. destruct (scan_Some _ _ _ _ _ Hs) as (l1 & b & l2 & Ha & Hm & _ & Hi).
    destruct (IH _ _ Hu) as (l' & r & Hp & Hf). rewrite Hi in Hp.
    exists (b :: l'), r. split; [|now constructor].
    rewrite Ha. etransitivity; [symmetry; apply Permutation_middle|].
    simpl. now apply perm_skip.
Qed.

(** On sequences of equal length, the scan leaves nothing unmatched exactly
    when a one-to-one pairing exists. *)
Lemma unmatched_nil_iff actualSlice expectedSlice :
  length actualSlice = length expectedSlice ->
  unmatched ∅ actualSlice expectedSlice = [] <-> pairing expectedSlice actualSlice.
Proof.
  intros Hlen. split.
  - intros Hu. destruct (unmatched_nil _ _ _ Hu) as (l' & r & Hp & Hf).
    rewrite avail_empty in Hp. exists l'. split; [|exact Hf].
    assert (Hr : r = []).
    { apply Permutation_length in Hp. apply Forall2_length in Hf.
      rewrite length_app in Hp. destruct r; [reflexivity | simpl in Hp; lia]. }
    subst r. now rewrite app_nil_r in Hp.
  - intros Hp. apply pairing_unmatched. now rewrite avail_empty.
Qed.

(** The first unmatched expected element is the first one, in the order of
    the expected sequence, that no unmarked actual element equals once the
    elements before it have taken their partners. *)
Lemma unmatched_first ys : forall used xs a others,
  unmatched used xs ys = a :: others ->
  exists es1 es2,
    ys = (es1 ++ a :: es2)%list /\ unmatched used xs es1 = []
    /\ List.Forall (fun b => reflect.DeepEqual a b = false)
                   (avail (marked used xs es1) 0 xs).
Proof.
  induction ys as [|e ys IH]; intros used xs a others; simpl; [discriminate|].
  destruct (scan used e 0 xs) as [i|] eqn:Hs.
  - intros Hu. destruct (IH _ _ _ _ Hu) as (es1 & es2 & -> & Hn & Hf).
    exists (e :: es1), es2. simpl. rewrite Hs. auto.
  - intros [= -> _]. exists [], ys. simpl. repeat split. now apply scan_None.
Qed.

(** ** Effects of the two variants *)

Ltac unfold_run :=
  unfold run, mbind, mret, M_bind, M_ret, bind, ret, panic in *.

Section Effects.
Context `{Collaborators}.

Lemma dispatched_app l1 l2 :
  dispatched (l1 ++ l2) = (dispatched l1 ++ dispatched l2)%list.
Proof.
  induction l1 as [|[|m] l1 IH]; simpl; [reflexivity | exact IH | now rewrite IH].
Qed.

Lemma dispatched_helper t : dispatched (helper_events t) = [].
Proof. unfold helper_events. now destruct (has_Helper t). Qed.

Lemma call_Helper_run t log :
  call_Helper t log = ((log ++ helper_events t)%list, Ok tt).
Proof.
  unfold call_Helper, helper_events. destruct (has_Helper t); [reflexivity|].
  now rewrite app_nil_r.
Qed.

Lemma Delegated_fatal_run c log :
  Delegated.fatal c log
  = ((log ++ helper_events (Delegated.cond_Fataler c)
          ++ [Fatal (Delegated.cond_String c)])%list,
     after_Fatal (Delegated.cond_Fataler c)).
Proof.
  unfold Delegated.fatal. unfold_run. rewrite call_Helper_run.
  unfold call_Fatal, after_Fatal. now rewrite <- app_assoc.
Qed.

End Effects.

(** ** The location prefix of the stack-walking variant *)

Lemma upto_test_spec s snew :
  StackWalk.upto_test s snew
  = if existsb StackWalk.isTestFrame s then Some (snew ++ through_test s)%list
    else None.
Proof.
  revert snew; induction s as [|f s IH]; intros snew; simpl; [reflexivity|].
  destruct (StackWalk.isTestFrame f); simpl; [reflexivity|].
  rewrite IH. destruct (existsb StackWalk.isTestFrame s); [|reflexivity].
  now rewrite <- app_assoc.
Qed.

Lemma through_test_none s :
  existsb StackWalk.isTestFrame s = false -> through_test s = s.
Proof.
  induction s as [|f s IH]; simpl; [reflexivity|].
  destruct (StackWalk.isTestFrame f); simpl; [discriminate|].
  intros Hs. now rewrite IH.
Qed.

(** With the first test frame at index [k], [through_test] is the first
    [k+1] frames. *)
Lemma through_test_take s k f :
  s !! k = Some f -> StackWalk.isTestFrame f = true ->
  (forall j g, (j < k)%nat -> s !! j = Some g -> StackWalk.isTestFrame g = false) ->
  through_test s = take (S k) s.
Proof.
  revert k; induction s as [|g s IH]; intros k Hk Hf Hbefore; [discriminate|].
  destruct k as [|k]; simpl in *.
  - injection Hk as ->. rewrite Hf. now rewrite take_0.
  - rewrite (Hbefore 0%nat g) by (lia || reflexivity). f_equal.
    apply IH; [exact Hk | exact Hf |].
    intros j g' Hj Hg'. apply (Hbefore (S j) g'); [lia | exact Hg'].
Qed.

Section Location.
Context `{Collaborators}.

Lemma pstack_run first rest log :
  StackWalk.pstack (first :: rest) log = (log, Ok (location first rest)).
Proof.
  unfold StackWalk.pstack, location.
  destruct (StackWalk.isTestFrame first) eqn:Hf; [reflexivity|].
  rewrite upto_test_spec. simpl. rewrite Hf. simpl.
  destruct (existsb StackWalk.isTestFrame rest) eqn:He; [reflexivity|].
  now rewrite through_test_none.
Qed.

(** [fatal] called by a predicate whose caller is [first]: the three
    frames of this package are skipped. *)
Lemma StackWalk_fatal_run f first rest t format args extra log :
  String.eqb format "" = false ->
  StackWalk.fatal (f :: first :: rest)
                  (StackWalk.mkCond t 0 format args extra) log
  = ((log ++ [Fatal (StackWalk_message first rest format args extra)])%list,
     after_Fatal t).
Proof.
  intros Hfmt. unfold StackWalk.fatal, StackWalk.cond_String. unfold_run.
  cbn [StackWalk.Skip StackWalk.Format StackWalk.FormatArgs StackWalk.Extra
       StackWalk.cond_Fataler].
  change (StackWalk.Callers (0 + 2 + 1) _) with (first :: rest).
  rewrite pstack_run, Hfmt. unfold call_Fatal, after_Fatal. f_equal. f_equal.
  f_equal. unfold StackWalk_message, with_extras.
  change (Sprintf "%s%s" [AString StackWalk.deleteSelf; AString (location first rest)])
    with (StackWalk.deleteSelf +:+ location first rest +:+ "").
  rewrite append_nil_r.
  destruct (length extra =? 0)%nat; now rewrite ?append_assoc.
Qed.

End Location.

(** ** Messages and runs of the predicates *)

(** Evaluates [Sprintf] on the literal formats of the package. *)
Ltac sprintf :=
  repeat match goal with
  | |- context [Sprintf ?f ?args] =>
      let f' := eval vm_compute in f in
      progress change (Sprintf f args) with (Sprintf f' args)
  end;
  cbn; rewrite ?append_nil_r.

Section Runs.
Context `{Collaborators}.

Lemma Delegated_cond_String t format args extra :
  String.eqb format "" = false ->
  Delegated.cond_String (Delegated.mkCond t format args extra)
  = Delegated_message format args extra.
Proof.
  intros Hfmt. unfold Delegated.cond_String, Delegated_message, with_extras.
  cbn [Delegated.Format Delegated.FormatArgs Delegated.Extra]. now rewrite Hfmt.
Qed.

Lemma fatals_dispatched t pre msgs log :
  dispatched pre = [] ->
  dispatched (fatals t pre msgs log).1
  = (dispatched log ++ if Fatal_returns t then msgs else take 1 msgs)%list.
Proof.
  intros Hpre. revert log; induction msgs as [|m msgs IH]; intros log; simpl.
  - now destruct (Fatal_returns t); rewrite app_nil_r.
  - destruct (Fatal_returns t) eqn:Hr.
    + rewrite IH, !dispatched_app, Hpre. simpl. now rewrite <- app_assoc.
    + simpl. rewrite !dispatched_app, Hpre. simpl. now rewrite take_0.
Qed.

Lemma fatals_result t pre msgs log :
  (fatals t pre msgs log).2
  = match msgs with
    | [] => Ok tt
    | _ :: _ => after_Fatal t
    end.
Proof.
  unfold after_Fatal.
  revert log; induction msgs as [|m msgs IH]; intros log; simpl; [reflexivity|].
  destruct (Fatal_returns t) eqn:Hr; [|reflexivity].
  rewrite IH. destruct msgs; [reflexivity|]. now rewrite ?Hr.
Qed.

Lemma Delegated_outer_run t actual expected extra actualSlice es :
  forall used log,
    Delegated.SameElements_outer t actual expected extra actualSlice used es log
    = fatals t (helper_events t)
        (map (fun a => with_extras (missing_text actual expected a) extra)
             (unmatched used actualSlice es)) log.
Proof.
  induction es as [|a es IH]; intros used log; simpl; [reflexivity|].
  destruct (scan used a 0 actualSlice) as [i|]; [apply IH|].
  unfold_run. rewrite Delegated_fatal_run.
  cbn [Delegated.cond_Fataler]. rewrite Delegated_cond_String by reflexivity.
  unfold after_Fatal. simpl.
  replace (Delegated_message _ _ extra)
    with (with_extras (missing_text actual expected a) extra).
  2:{ unfold Delegated_message. f_equal. now sprintf. }
  destruct (Fatal_returns t); [apply IH | reflexivity].
Qed.

Lemma Delegated_SameElements_run t actual expected extra xs ys log :
  reflect.elements actual = Some xs -> reflect.elements expected = Some ys ->
  Delegated.SameElements t actual expected extra log
  = fatals t (helper_events t) (Delegated_reports actual expected extra xs ys)
           (log ++ helper_events t)%list.
Proof.
  intros Hxs Hys. unfold Delegated.SameElements, toInterfaceSlice.
  rewrite Hxs, Hys. unfold_run. rewrite call_Helper_run.
  unfold Delegated_reports.
  destruct (negb (length xs =? length ys)%nat).
  - rewrite Delegated_fatal_run. cbn [Delegated.cond_Fataler].
    rewrite Delegated_cond_String by reflexivity.
    replace (Delegated_message _ _ extra)
      with (with_extras (lengths_text actual expected) extra).
    2:{ unfold Delegated_message. f_equal. now sprintf. }
    unfold after_Fatal. simpl.
    destruct (Fatal_returns t); [apply Delegated_outer_run | reflexivity].
  - simpl. apply Delegated_outer_run.
Qed.

Lemma StackWalk_outer_run first rest t actual expected extra actualSlice es :
  forall used log,
    StackWalk.SameElements_outer (first :: rest) t actual expected extra
                                 actualSlice used es log
    = fatals t []
        (map (fun a => StackWalk_text first rest
                         (missing_text actual expected a) extra)
             (unmatched used actualSlice es)) log.
Proof.
  induction es as [|a es IH]; intros used log; simpl; [reflexivity|].
  destruct (scan used a 0 actualSlice) as [i|]; [apply IH|].
  unfold_run. rewrite StackWalk_fatal_run by reflexivity.
  unfold after_Fatal.
  replace (StackWalk_message first rest _ _ extra)
    with (StackWalk_text first rest (missing_text actual expected a) extra).
  2:{ unfold StackWalk_message, StackWalk_text. do 3 f_equal. now sprintf. }
  simpl. destruct (Fatal_returns t); [apply IH | reflexivity].
Qed.

Lemma StackWalk_SameElements_run first rest t actual expected extra xs ys log :
  reflect.elements actual = Some xs -> reflect.elements expected = Some ys ->
  StackWalk.SameElements (first :: rest) t actual expected extra log
  = fatals t [] (StackWalk_reports first rest actual expected extra xs ys) log.
Proof.
  intros Hxs Hys. unfold StackWalk.SameElements, toInterfaceSlice.
  rewrite Hxs, Hys. unfold_run. unfold StackWalk_reports.
  destruct (negb (length xs =? length ys)%nat).
  - rewrite StackWalk_fatal_run by reflexivity.
    replace (StackWalk_message first rest _ _ extra)
      with (StackWalk_text first rest (lengths_text actual expected) extra).
    2:{ unfold StackWalk_message, StackWalk_text. do 3 f_equal. now sprintf. }
    unfold after_Fatal. simpl.
    destruct (Fatal_returns t); [apply StackWalk_outer_run | reflexivity].
  - simpl. apply StackWalk_outer_run.
Qed.


End Runs.


(** ** Dispatches of a guarded [fatal] *)

Section Guards.
Context `{Collaborators}.

(** A predicate of the delegating variant: [Helper], then one [fatal] when
    the guard fails. *)
Lemma Delegated_guard t (failing : bool) format args extra :
  String.eqb format "" = false ->
  dispatched
    (run (call_Helper t;;
          if failing then Delegated.fatal (Delegated.mkCond t format args extra)
          else ret tt)).1
  = if failing then [Delegated_message format args extra] else [].
Proof.
  intros Hfmt. unfold_run. rewrite call_Helper_run. destruct failing.
  - rewrite Delegated_fatal_run, Delegated_cond_String by exact Hfmt.
    cbn [fst Delegated.cond_Fataler].
    now rewrite !dispatched_app, dispatched_helper.
  - cbn [fst]. now rewrite dispatched_app, dispatched_helper.
Qed.

(** A predicate of the stack-walking variant, called from [first]. *)
Lemma StackWalk_guard f first rest t (failing : bool) format args extra :
  String.eqb format "" = false ->
  dispatched
    (run (if failing
          then StackWalk.fatal (f :: first :: rest)
                               (StackWalk.mkCond t 0 format args extra)
          else ret tt)).1
  = if failing then [StackWalk_message first rest format args extra] else [].
Proof.
  intros Hfmt. unfold_run. destruct failing; [|reflexivity].
  now rewrite StackWalk_fatal_run by exact Hfmt.
Qed.

End Guards.

(** ** StringContains *)

(** C3, as amended: [StringContains] dispatches exactly when [substr] is not
    a substring of [s], and then dispatches one message.  In the delegating
    variant the message is the block form when [s] or [substr] contains a
    line break and the single-line quoted form otherwise; in the
    stack-walking variant it is always the single-line quoted form, after
    the location prefix. *)
Theorem StringContains_spec `{Collaborators} (t : Fataler) (first : Frame)
    (rest : list Frame) (s substr : string) (a : list Value) :
  (strings.Contains s substr = true <-> is_substring substr s)
  /\ dispatched (run (Delegated.StringContains t s substr a)).1
     = (if strings.Contains s substr then []
        else [with_extras
                (if strings.Contains s nl || strings.Contains substr nl
                 then block_text substr s else single_line_text substr s) a])
  /\ dispatched (run (StackWalk.StringContains (first :: rest) t s substr a)).1
     = (if strings.Contains s substr then []
        else [StackWalk_text first rest (single_line_text substr s) a]).
Proof.
  split; [apply Contains_spec|]. split.
  - unfold Delegated.StringContains. cbv zeta.
    destruct (strings.Contains s nl || strings.Contains substr nl);
      rewrite Delegated_guard by reflexivity;
      destruct (strings.Contains s substr); try reflexivity;
      cbn [negb]; unfold Delegated_message; do 2 f_equal; try (now sprintf).
  - unfold StackWalk.StringContains.
    rewrite StackWalk_guard by reflexivity.
    destruct (strings.Contains s substr); [reflexivity|].
    cbn [negb]. unfold StackWalk_message, StackWalk_text. do 4 f_equal; try (now sprintf).
Qed.

(** C3, as stated, fails on the stack-walking variant: for a haystack with
    a line break the one message it dispatches is not in block form. *)
Lemma StringContains_StackWalk_not_block :
  let s := "foo" +:+ nl +:+ "baz" in
  let substr := "bar" in
  exists msg,
    dispatched (run (@StackWalk.StringContains Plain.collaborators [test_frame]
                       capture s substr [])).1 = [msg]
    /\ ~ (in_block_form msg <->
          (is_substring nl s \/ is_substring nl substr)).
Proof.
  cbv zeta. eexists. split; [vm_compute; reflexivity|].
  intros [_ Hblock].
  assert (Hnl : is_substring nl ("foo" +:+ nl +:+ "baz")).
  { now apply Contains_spec. }
  specialize (Hblock (or_introl Hnl)).
  apply Contains_spec in Hblock. vm_compute in Hblock. discriminate.
Qed.

(** ** Err *)

Ltac delegated_run :=
  unfold_run; rewrite ?call_Helper_run; rewrite ?Delegated_fatal_run;
  cbn [fst snd Delegated.cond_Fataler];
  rewrite ?Delegated_cond_String by reflexivity;
  rewrite ?dispatched_app, ?dispatched_helper; cbn [dispatched app].

(** C4: [Err] dispatches exactly when it is not the case that the error
    and the pattern are both absent, or the error is present and the
    pattern matches its text; with both absent it calls [Fatal] not at all
    and returns; in each failing case it dispatches the one message of that
    case: nil error with a pattern, error with no pattern, or mismatch. *)
Theorem Err_spec `{Collaborators} (t : Fataler) (first : Frame)
    (rest callers : list Frame) (err : option GoError) (re : option Regexp)
    (a : list Value) :
  dispatched (run (Delegated.Err t err re a)).1
  = match Err_text Verbose err re with
    | None => []
    | Some text => [with_extras text a]
    end
  /\ dispatched (run (StackWalk.Err (first :: rest) t err re a)).1
     = match Err_text Error err re with
       | None => []
       | Some text => [StackWalk_text first rest text a]
       end
  /\ (forall shown,
        Err_text shown err re = None <->
        (err = None /\ re = None)
        \/ (exists e r, err = Some e /\ re = Some r
                        /\ MatchString r (Error e) = true))
  /\ run (Delegated.Err t None None a) = (helper_events t, Ok tt)
  /\ run (StackWalk.Err callers t None None a) = ([], Ok tt).
Proof.
  repeat split.
  - unfold Delegated.Err.
    destruct err as [e|], re as [r|]; cbn [Err_text];
      try destruct (MatchString r (Error e)); cbn [negb];
      delegated_run; try reflexivity;
      unfold Delegated_message; do 2 f_equal; try (now sprintf).
  - unfold StackWalk.Err.
    destruct err as [e|], re as [r|]; cbn [Err_text];
      try destruct (MatchString r (Error e)); cbn [negb];
      unfold_run; rewrite ?StackWalk_fatal_run by reflexivity;
      try reflexivity;
      cbn [fst dispatched app]; unfold StackWalk_message, StackWalk_text;
      do 4 f_equal; try (now sprintf).
  - destruct err as [e|], re as [r|]; cbn [Err_text];
      try destruct (MatchString r (Error e)) eqn:Hm; try discriminate; intros _.
    + right. now exists e, r.
    + now left.
  - intros [[-> ->] | (e & r & -> & -> & Hm)]; cbn [Err_text];
      [reflexivity | now rewrite Hm].
Qed.

(** ** DeepEqual *)




(** ** Nil and NotNil *)

Section NilRuns.
Context `{Collaborators}.

Lemma all_but_last_run vs log :
  vs <> "" -> exists head, init_bytes vs = Some head
                           /\ all_but_last vs log = (log, Ok head).
Proof.
  intros Hne. unfold all_but_last. destruct (init_bytes vs) as [h|] eqn:Hi.
  - now exists h.
  - apply init_bytes_None in Hi. contradiction.
Qed.

Lemma Delegated_Nil_dispatched t v a :
  is_nil v = false -> tsdump [v] <> "" ->
  dispatched (run (Delegated.Nil t v a)).1 = [with_extras (Nil_text Verbose v) a].
Proof.
  intros Hv Hd. unfold Delegated.Nil. unfold_run. rewrite call_Helper_run.
  destruct (all_but_last_run _ (([] ++ helper_events t)%list) Hd) as (h & Hi & ->).
  rewrite Hv. cbn [negb]. unfold tsdump in Hi.
  rewrite (TrimSpace_init_multiline _ _ Hi). fold (tsdump [v]).
  unfold Nil_text. destruct (as_error v) as [e|]; delegated_run;
    unfold Delegated_message; do 2 f_equal; try (now sprintf).
Qed.

Lemma StackWalk_Nil_dispatched first rest t v a :
  is_nil v = false -> tsdump [v] <> "" ->
  dispatched (run (StackWalk.Nil (first :: rest) t v a)).1
  = [StackWalk_text first rest (Nil_text Error v) a].
Proof.
  intros Hv Hd. unfold StackWalk.Nil. unfold_run.
  destruct (all_but_last_run _ [] Hd) as (h & Hi & ->).
  rewrite Hv. cbn [negb]. unfold tsdump in Hi.
  rewrite (TrimSpace_init_multiline _ _ Hi). fold (tsdump [v]).
  unfold Nil_text. destruct (as_error v) as [e|];
    rewrite StackWalk_fatal_run by reflexivity; cbn [fst dispatched app];
    unfold StackWalk_message, StackWalk_text; do 4 f_equal; try (now sprintf).
Qed.

Lemma Delegated_NotNil_dispatched t v a :
  dispatched (run (Delegated.NotNil t v a)).1
  = if is_nil v then [with_extras "expected a value but got nil" a] else [].
Proof.
  unfold Delegated.NotNil. rewrite Delegated_guard by reflexivity.
  destruct (is_nil v); reflexivity.
Qed.

Lemma StackWalk_NotNil_dispatched first rest t v a :
  dispatched (run (StackWalk.NotNil (first :: rest) t v a)).1
  = if is_nil v
    then [StackWalk_text first rest "expected a value but got nil" a] else [].
Proof.
  unfold StackWalk.NotNil. rewrite StackWalk_guard by reflexivity.
  destruct (is_nil v); reflexivity.
Qed.

End NilRuns.

(** C6: on every value that is not nil, [Nil] dispatches exactly one
    message: the unexpected-error report when the value is of an error
    type, and otherwise the expected-nil report followed by the dump,
    separated by a line break when the dump spans several lines and by a
    space when it does not.  The dump of a single value is assumed not to be
    blank, as the printer guarantees. *)
Theorem Nil_spec `{Collaborators} (t : Fataler) (first : Frame)
    (rest : list Frame) (v : Value) (a : list Value) :
  is_nil v = false -> tsdump [v] <> "" ->
  dispatched (run (Delegated.Nil t v a)).1
  = [with_extras
       (match as_error v with
        | Some e => "unexpected error: " +:+ Verbose e
        | None => "expected nil value but got:"
                  +:+ (if strings.Contains (tsdump [v]) nl then nl else " ")
                  +:+ tsdump [v]
        end) a]
  /\ dispatched (run (StackWalk.Nil (first :: rest) t v a)).1
     = [StackWalk_text first rest
          (match as_error v with
           | Some e => "unexpected error: " +:+ Error e
           | None => "expected nil value but got:"
                     +:+ (if strings.Contains (tsdump [v]) nl then nl else " ")
                     +:+ tsdump [v]
           end) a]
  /\ (strings.Contains (tsdump [v]) nl = true <-> is_substring nl (tsdump [v])).
Proof.
  intros Hv Hd. split; [|split].
  - exact (Delegated_Nil_dispatched t v a Hv Hd).
  - exact (StackWalk_Nil_dispatched first rest t v a Hv Hd).
  - apply Contains_spec.
Qed.

Lemma Nil_spec_witness :
  let v := VStruct "ensure.typ" [VInt "int" 0] in
  is_nil v = false
  /\ @tsdump Plain.collaborators [v] <> ""
  /\ dispatched (run (@Delegated.Nil Plain.collaborators capture v [])).1
     = ["expected nil value but got:" +:+ nl +:+ "(ensure.typ) {" +:+ nl
        +:+ " (int) 0" +:+ nl +:+ "}"].
Proof.
  cbv zeta. split; [reflexivity|]. split; [vm_compute; discriminate|].
  destruct (@Nil_spec Plain.collaborators capture test_frame []
              (VStruct "ensure.typ" [VInt "int" 0]) [])
    as (Hd & _ & _); [reflexivity | vm_compute; discriminate |].
  rewrite Hd. vm_compute. reflexivity.
Defined.

(** C10: a typed nil pointer held in an interface is not nil: [Nil]
    dispatches one message on it and [NotNil] dispatches none, in both
    variants, since both compare the interface value itself with nil. *)
Theorem typed_nil_pointer_is_present `{Collaborators} (t : Fataler)
    (first : Frame) (rest callers : list Frame) (ty : string)
    (ae : option string) (a : list Value) :
  tsdump [VNilPtr ty ae] <> "" ->
  is_nil (VNilPtr ty ae) = false
  /\ length (dispatched (run (Delegated.Nil t (VNilPtr ty ae) a)).1) = 1%nat
  /\ length (dispatched (run (StackWalk.Nil (first :: rest) t
                                            (VNilPtr ty ae) a)).1) = 1%nat
  /\ dispatched (run (Delegated.NotNil t (VNilPtr ty ae) a)).1 = []
  /\ dispatched (run (StackWalk.NotNil callers t (VNilPtr ty ae) a)).1 = [].
Proof.
  intros Hd. split; [reflexivity|]. split; [|split; [|split]].
  - now rewrite Delegated_Nil_dispatched.
  - now rewrite StackWalk_Nil_dispatched.
  - now rewrite Delegated_NotNil_dispatched.
  - reflexivity.
Qed.

Lemma typed_nil_pointer_is_present_witness :
  @tsdump Plain.collaborators [VNilPtr "*int" None] <> ""
  /\ dispatched (run (@Delegated.Nil Plain.collaborators capture
                        (VNilPtr "*int" None) [])).1
     = ["expected nil value but got: (*int)(<nil>)"]
  /\ dispatched (run (@Delegated.NotNil Plain.collaborators capture
                        (VNilPtr "*int" None) [])).1 = [].
Proof.
  split; [vm_compute; discriminate|].
  destruct (@typed_nil_pointer_is_present Plain.collaborators capture
              test_frame [] [] "*int" None [])
    as (_ & _ & _ & Hn & _); [vm_compute; discriminate|].
  split; [vm_compute; reflexivity | exact Hn].
Defined.

(** ** PanicDeepEqual *)

(** C8: with a nil expected value [PanicDeepEqual] panics with its fixed
    message, whatever the Fataler, the extras and the panic in flight, and
    the Fataler's [Fatal] is not called. *)
Theorem PanicDeepEqual_nil_expected `{Collaborators} (in_flight : option Value)
    (t : Fataler) (a : list Value) :
  (run (Delegated.PanicDeepEqual in_flight t VNil a)).2
  = Panic (VString "can't pass nil to ensure.PanicDeepEqual")
  /\ dispatched (run (Delegated.PanicDeepEqual in_flight t VNil a)).1 = [].
Proof.
  unfold Delegated.PanicDeepEqual. unfold_run. rewrite call_Helper_run.
  cbn [is_nil fst snd]. split; [reflexivity|].
  now rewrite dispatched_app, dispatched_helper.
Qed.

(** ** pstack *)

Lemma append_not_empty (s r : string) : r <> "" -> s +:+ r <> "".
Proof. intros Hr. destruct s; [exact Hr | discriminate]. Qed.

(** C9: on a stack that is not empty, [pstack] returns the base name of
    the first frame's file, its line and a colon when that frame is a test
    frame (its function name begins with Test); otherwise the frames from
    the first one up to and including the first test frame, rendered after
    eight spaces and closed by a line break; and the whole stack in that
    form when it has no test frame.  The result is never empty. *)
Theorem pstack_spec `{Collaborators} (first : Frame) (rest : list Frame) :
  (StackWalk.isTestFrame first = true ->
   run (StackWalk.pstack (first :: rest))
   = ([], Ok (filepath.Base (File first) +:+ ":" +:+ pretty (Line first)
              +:+ ": ")))
  /\ (forall (k : nat) (f : Frame),
        StackWalk.isTestFrame first = false ->
        (first :: rest) !! k = Some f -> StackWalk.isTestFrame f = true ->
        (forall (j : nat) (g : Frame),
            (j < k)%nat -> (first :: rest) !! j = Some g ->
            StackWalk.isTestFrame g = false) ->
        run (StackWalk.pstack (first :: rest))
        = ([], Ok ("        " +:+ Stack_String (take (S k) (first :: rest))
                   +:+ nl)))
  /\ (existsb StackWalk.isTestFrame (first :: rest) = false ->
      run (StackWalk.pstack (first :: rest))
      = ([], Ok ("        " +:+ Stack_String (first :: rest) +:+ nl)))
  /\ (exists loc, run (StackWalk.pstack (first :: rest)) = ([], Ok loc)
                  /\ loc <> "")
  /\ (forall f, StackWalk.isTestFrame f = true <->
                exists rest_of_name, Name f = "Test" +:+ rest_of_name).
Proof.
  unfold run. rewrite pstack_run. unfold location. repeat split.
  - intros ->. reflexivity.
  - intros k f Hfirst Hk Hf Hbefore. rewrite Hfirst.
    now rewrite (through_test_take _ k f Hk Hf Hbefore).
  - intros Hnone. rewrite through_test_none by exact Hnone.
    simpl in Hnone. apply orb_false_iff in Hnone as [-> _]. reflexivity.
  - eexists. split; [reflexivity|].
    destruct (StackWalk.isTestFrame first); [|discriminate].
    do 3 apply append_not_empty. discriminate.
  - apply HasPrefix_spec.
  - apply HasPrefix_spec.
Qed.

Lemma pstack_spec_witness :
  run (@StackWalk.pstack Plain.collaborators [indirect_frame; indirect_test_frame])
  = ([], Ok ("        github.com/facebookgo/ensure/ensure_test.go:188 indirect"
             +:+ nl
             +:+ "github.com/facebookgo/ensure/ensure_test.go:195 TestIndirectStackTrace"
             +:+ nl)).
Proof.
  destruct (@pstack_spec Plain.collaborators indirect_frame [indirect_test_frame])
    as (_ & Hwalk & _).
  rewrite (Hwalk 1%nat indirect_test_frame);
    [reflexivity | reflexivity | reflexivity | reflexivity |].
  intros [|j] g Hj Hg; [|lia]. injection Hg as <-. reflexivity.
Defined.

(** ** SameElements *)

Section SameElementsDispatch.
Context `{Collaborators}.

(** What [SameElements] dispatches: every report when [Fatal] returns, the
    first one when it does not. *)
Lemma Delegated_SameElements_dispatched t actual expected extra xs ys :
  reflect.elements actual = Some xs -> reflect.elements expected = Some ys ->
  dispatched (run (Delegated.SameElements t actual expected extra)).1
  = if Fatal_returns t then Delegated_reports actual expected extra xs ys
    else take 1 (Delegated_reports actual expected extra xs ys).
Proof.
  intros Hxs Hys. unfold run.
  rewrite (Delegated_SameElements_run _ _ _ _ xs ys) by assumption.
  rewrite fatals_dispatched by apply dispatched_helper.
  now rewrite dispatched_app, dispatched_helper.
Qed.

Lemma StackWalk_SameElements_dispatched first rest t actual expected extra xs ys :
  reflect.elements actual = Some xs -> reflect.elements expected = Some ys ->
  dispatched (run (StackWalk.SameElements (first :: rest) t actual expected
                                          extra)).1
  = if Fatal_returns t
    then StackWalk_reports first rest actual expected extra xs ys
    else take 1 (StackWalk_reports first rest actual expected extra xs ys).
Proof.
  intros Hxs Hys. unfold run.
  rewrite (StackWalk_SameElements_run _ _ _ _ _ _ xs ys) by assumption.
  now rewrite fatals_dispatched.
Qed.

(** With a Fataler whose [Fatal] does not return, [SameElements]
    dispatches at most one message. *)
Lemma SameElements_aborting_at_most_one first rest t actual expected extra xs ys :
  Fatal_returns t = false ->
  reflect.elements actual = Some xs -> reflect.elements expected = Some ys ->
  (length (dispatched (run (Delegated.SameElements t actual expected
                                                   extra)).1) <= 1)%nat
  /\ (length (dispatched (run (StackWalk.SameElements (first :: rest) t actual
                                                      expected extra)).1) <= 1)%nat.
Proof.
  intros Ht Hxs Hys.
  rewrite (Delegated_SameElements_dispatched _ _ _ _ xs ys),
    (StackWalk_SameElements_dispatched _ _ _ _ _ _ xs ys), Ht by assumption.
  rewrite !length_take. lia.
Qed.

(** On sequences of equal length with no one-to-one pairing, the first
    message [SameElements] dispatches reports the first expected element
    the scan finds no partner for. *)
Lemma SameElements_first_missing first rest t actual expected extra xs ys :
  reflect.elements actual = Some xs -> reflect.elements expected = Some ys ->
  length xs = length ys -> ~ pairing ys xs ->
  exists a others,
    unmatched ∅ xs ys = a :: others
    /\ head (dispatched (run (Delegated.SameElements t actual expected extra)).1)
       = Some (with_extras (missing_text actual expected a) extra)
    /\ head (dispatched (run (StackWalk.SameElements (first :: rest) t actual
                                                     expected extra)).1)
       = Some (StackWalk_text first rest (missing_text actual expected a) extra).
Proof.
  intros Hxs Hys Hlen Hnp.
  destruct (unmatched ∅ xs ys) as [|a others] eqn:Hu.
  { exfalso. apply Hnp. now apply unmatched_nil_iff. }
  exists a, others. split; [reflexivity|].
  rewrite (Delegated_SameElements_dispatched _ _ _ _ xs ys),
    (StackWalk_SameElements_dispatched _ _ _ _ _ _ xs ys) by assumption.
  unfold Delegated_reports, StackWalk_reports.
  rewrite Hlen, Nat.eqb_refl, Hu. cbn [negb app map].
  now destruct (Fatal_returns t).
Qed.

End SameElementsDispatch.



(** C1, on the code: given sequences of different lengths and a Fataler
    whose [Fatal] returns, [SameElements] dispatches the different-lengths
    report and then goes on to match the elements, so a second message is
    dispatched in the same call. *)
Theorem SameElements_length_mismatch_goes_on `{Collaborators} (first : Frame)
    (rest : list Frame) :
  let actual := ints 1 [1; 2]%Z in
  let expected := interfaces 7 [VInt "int" 3] in
  dispatched (run (Delegated.SameElements capture actual expected [])).1
  = [lengths_text actual expected;
     missing_text actual expected (VInt "int" 3)]
  /\ dispatched (run (StackWalk.SameElements (first :: rest) capture actual
                                             expected [])).1
     = [StackWalk.deleteSelf +:+ location first rest
        +:+ lengths_text actual expected;
        StackWalk.deleteSelf +:+ location first rest
        +:+ missing_text actual expected (VInt "int" 3)].
Proof.
  cbv zeta. split.
  - rewrite (Delegated_SameElements_dispatched _ _ _ _
               [VInt "int" 1; VInt "int" 2] [VInt "int" 3]) by reflexivity.
    reflexivity.
  - rewrite (StackWalk_SameElements_dispatched _ _ _ _ _ _
               [VInt "int" 1; VInt "int" 2] [VInt "int" 3]) by reflexivity.
    reflexivity.
Qed.

(** C7, on the code: on sequences of equal length and a Fataler whose
    [Fatal] returns, [SameElements] reports the first expected element
    without a partner and then checks the expected elements after it, so a
    second missing-element report is dispatched in the same call. *)
Theorem SameElements_missing_goes_on `{Collaborators} (first : Frame)
    (rest : list Frame) :
  let actual := ints 1 [1; 2]%Z in
  let expected := interfaces 8 [VInt "int" 3; VInt "int" 4] in
  dispatched (run (Delegated.SameElements capture actual expected [])).1
  = [missing_text actual expected (VInt "int" 3);
     missing_text actual expected (VInt "int" 4)]
  /\ dispatched (run (StackWalk.SameElements (first :: rest) capture actual
                                             expected [])).1
     = [StackWalk.deleteSelf +:+ location first rest
        +:+ missing_text actual expected (VInt "int" 3);
        StackWalk.deleteSelf +:+ location first rest
        +:+ missing_text actual expected (VInt "int" 4)].
Proof.
  cbv zeta. split.
  - rewrite (Delegated_SameElements_dispatched _ _ _ _
               [VInt "int" 1; VInt "int" 2] [VInt "int" 3; VInt "int" 4])
      by reflexivity.
    reflexivity.
  - rewrite (StackWalk_SameElements_dispatched _ _ _ _ _ _
               [VInt "int" 1; VInt "int" 2] [VInt "int" 3; VInt "int" 4])
      by reflexivity.
    reflexivity.
Qed.

(** ** One dispatch per failing call *)

Section OneDispatch.
Context `{Collaborators}.

(** The remaining predicates of the delegating variant call [Fatal] once
    when their condition fails and not at all when it holds. *)
Lemma Delegated_one_dispatch t (x y : Value) (b : bool) (s substr : string)
    (in_flight : option Value) (a : list Value) :
  length (dispatched (run (Delegated.DeepEqual t x y a)).1)
  = (if reflect.DeepEqual x y then 0 else 1)%nat
  /\ length (dispatched (run (Delegated.NotDeepEqual t x y a)).1)
     = (if reflect.DeepEqual x y then 1 else 0)%nat
  /\ length (dispatched (run (Delegated.True_ t b a)).1) = (if b then 0 else 1)%nat
  /\ length (dispatched (run (Delegated.False_ t b a)).1) = (if b then 1 else 0)%nat
  /\ length (dispatched (run (Delegated.StringDoesNotContain t s substr a)).1)
     = (if strings.Contains s substr then 1 else 0)%nat
  /\ (is_nil y = false ->
      length (dispatched (run (Delegated.PanicDeepEqual in_flight t y a)).1)
      = (if reflect.DeepEqual (Delegated.recover in_flight) y then 0 else 1)%nat).
Proof.
  repeat split.
  - unfold Delegated.DeepEqual. rewrite Delegated_guard by reflexivity.
    now destruct (reflect.DeepEqual x y).
  - unfold Delegated.NotDeepEqual. rewrite Delegated_guard by reflexivity.
    now destruct (reflect.DeepEqual x y).
  - unfold Delegated.True_. rewrite Delegated_guard by reflexivity. now destruct b.
  - unfold Delegated.False_. rewrite Delegated_guard by reflexivity. now destruct b.
  - unfold Delegated.StringDoesNotContain. rewrite Delegated_guard by reflexivity.
    now destruct (strings.Contains s substr).
  - intros Hy. unfold Delegated.PanicDeepEqual. rewrite Hy.
    pose proof (Delegated_guard t
      (negb (reflect.DeepEqual (Delegated.recover in_flight) y))) as Hg.
    unfold_run. rewrite call_Helper_run in *.
    cbv zeta. erewrite Hg by reflexivity.
    now destruct (reflect.DeepEqual (Delegated.recover in_flight) y).
Qed.

(** So do those of the stack-walking variant, called from [first]. *)
Lemma StackWalk_one_dispatch first rest t (x y : Value) (b : bool)
    (s substr : string) (a : list Value) :
  length (dispatched (run (StackWalk.DeepEqual (first :: rest) t x y a)).1)
  = (if reflect.DeepEqual x y then 0 else 1)%nat
  /\ length (dispatched (run (StackWalk.NotDeepEqual (first :: rest) t x y a)).1)
     = (if reflect.DeepEqual x y then 1 else 0)%nat
  /\ length (dispatched (run (StackWalk.Subset (first :: rest) t x y a)).1)
     = (if subset_Check y x then 0 else 1)%nat
  /\ length (dispatched (run (StackWalk.True_ (first :: rest) t b a)).1)
     = (if b then 0 else 1)%nat
  /\ length (dispatched (run (StackWalk.StringDoesNotContain (first :: rest) t
                                                             s substr a)).1)
     = (if strings.Contains s substr then 1 else 0)%nat.
Proof.
  repeat split.
  - unfold StackWalk.DeepEqual. rewrite StackWalk_guard by reflexivity.
    now destruct (reflect.DeepEqual x y).
  - unfold StackWalk.NotDeepEqual. rewrite StackWalk_guard by reflexivity.
    now destruct (reflect.DeepEqual x y).
  - unfold StackWalk.Subset. rewrite StackWalk_guard by reflexivity.
    now destruct (subset_Check y x).
  - unfold StackWalk.True_. rewrite StackWalk_guard by reflexivity. now destruct b.
  - unfold StackWalk.StringDoesNotContain. rewrite StackWalk_guard by reflexivity.
    now destruct (strings.Contains s substr).
Qed.

End OneDispatch.

(** * Further properties of the code *)

(** ** The inner loop of SameElements *)

Lemma scan_from used a i0 xs i :
  scan used a i0 xs = Some i <->
  (i0 <= i)%nat /\ used_at used i = false
  /\ (exists b, xs !! (i - i0)%nat = Some b /\ reflect.DeepEqual a b = true)
  /\ (forall j b, (j < i - i0)%nat -> xs !! j = Some b ->
                  used_at used (i0 + j) = true \/ reflect.DeepEqual a b = false).
Proof.
  revert i0; induction xs as [|x xs IH]; intros i0; simpl.
  - split; [discriminate|]. intros (_ & _ & (b & Hb & _) & _). discriminate.
  - destruct (used_at used i0) eqn:Hu; simpl.
    + rewrite IH. split.
      * intros (Hle & Hi & (b & Hb & Hm) & Hleft). split; [lia|]. split; [exact Hi|].
        replace (i - i0)%nat with (S (i - S i0)) by lia. split; [now exists b|].
        intros [|j] b' Hj Hb'.
        -- left. now rewrite Nat.add_0_r.
        -- simpl in Hb'. replace (i0 + S j)%nat with (S i0 + j)%nat by lia.
           apply (Hleft j b'); [lia | exact Hb'].
      * intros (Hle & Hi & (b & Hb & Hm) & Hleft).
        assert (i <> i0) by (intros ->; congruence).
        replace (i - i0)%nat with (S (i - S i0)) in Hb, Hleft by lia.
        split; [lia|]. split; [exact Hi|]. split; [now exists b|].
        intros j b' Hj Hb'. replace (S i0 + j)%nat with (i0 + S j)%nat by lia.
        apply (Hleft (S j) b'); [lia | exact Hb'].
    + destruct (reflect.DeepEqual a x) eqn:Hax.
      * split.
        -- intros [= <-]. split; [lia|]. split; [exact Hu|].
           rewrite Nat.sub_diag. split; [now exists x|]. intros j b Hj. lia.
        -- intros (Hle & Hi & (b & Hb & Hm) & Hleft).
           destruct (decide (i = i0)) as [->|Hne]; [reflexivity|].
           exfalso. destruct (Hleft 0%nat x) as [Hc|Hc];
             [lia | reflexivity | rewrite Nat.add_0_r in Hc; congruence | congruence].
      * rewrite IH. split.
        -- intros (Hle & Hi & (b & Hb & Hm) & Hleft). split; [lia|]. split; [exact Hi|].
           replace (i - i0)%nat with (S (i - S i0)) by lia. split; [now exists b|].
           intros [|j] b' Hj Hb'.
           ++ right. simpl in Hb'. congruence.
           ++ simpl in Hb'. replace (i0 + S j)%nat with (S i0 + j)%nat by lia.
              apply (Hleft j b'); [lia | exact Hb'].
        -- intros (Hle & Hi & (b & Hb & Hm) & Hleft).
           assert (i <> i0).
           { intros ->. rewrite Nat.sub_diag in Hb. simpl in Hb. congruence. }
           replace (i - i0)%nat with (S (i - S i0)) in Hb, Hleft by lia.
           split; [lia|]. split; [exact Hi|]. split; [now exists b|].
           intros j b' Hj Hb'. replace (S i0 + j)%nat with (i0 + S j)%nat by lia.
           apply (Hleft (S j) b'); [lia | exact Hb'].
Qed.

Lemma scan_none_from used a i0 xs :
  scan used a i0 xs = None <->
  forall j b, xs !! j = Some b ->
              used_at used (i0 + j) = true \/ reflect.DeepEqual a b = false.
Proof.
  revert i0; induction xs as [|x xs IH]; intros i0; simpl.
  - split; [intros _ j b Hj; discriminate | reflexivity].
  - destruct (negb (used_at used i0) && reflect.DeepEqual a x) eqn:Hc.
    + split; [discriminate|]. intros Hall. exfalso.
      apply andb_true_iff in Hc as [Hu Hm]. apply negb_true_iff in Hu.
      destruct (Hall 0%nat x eq_refl) as [Hc|Hc];
        [rewrite Nat.add_0_r in Hc|]; congruence.
    + rewrite IH. split.
      * intros Hall [|j] b Hj; simpl in Hj.
        -- injection Hj as <-. rewrite Nat.add_0_r.
           apply andb_false_iff in Hc as [Hc|Hc]; [left | now right].
           now apply negb_false_iff in Hc.
        -- replace (i0 + S j)%nat with (S i0 + j)%nat by lia. now apply Hall.
      * intros Hall j b Hj. replace (S i0 + j)%nat with (i0 + S j)%nat by lia.
        now apply (Hall (S j) b).
Qed.

(** X1: the inner loop of [SameElements] returns index [i] exactly when [i]
    is the leftmost index of the actual sequence that is not marked used and
    holds an element deeply equal to the expected element; it finds no index
    exactly when every element is marked or differs. *)
Theorem scan_leftmost (used : gmap nat bool) (a : Value) (xs : list Value) :
  (forall i,
      scan used a 0 xs = Some i <->
      used_at used i = false
      /\ (exists b, xs !! i = Some b /\ reflect.DeepEqual a b = true)
      /\ (forall j b, (j < i)%nat -> xs !! j = Some b ->
                      used_at used j = true \/ reflect.DeepEqual a b = false))
  /\ (scan used a 0 xs = None <->
      forall j b, xs !! j = Some b ->
                  used_at used j = true \/ reflect.DeepEqual a b = false).
Proof.
  split.
  - intros i. rewrite scan_from, Nat.sub_0_r. simpl. split.
    + intros (_ & Hi & Hb & Hleft). auto.
    + intros (Hi & Hb & Hleft). split; [lia|]. auto.
  - apply scan_none_from.
Qed.

(** ** When SameElements passes *)

Lemma Forall2_rearrange (R : Value -> Value -> Prop) es es' :
  Permutation es es' ->
  forall l, List.Forall2 R es l ->
            exists l', Permutation l l' /\ List.Forall2 R es' l'.
Proof.
  induction 1 as [|e es es' _ IH|e1 e2 es|es es' es'' _ IH1 _ IH2]; intros l Hf.
  - inversion Hf; subst. exists []. split; [reflexivity | constructor].
  - inversion Hf as [|? x ? l0 Hx Hrest]; subst.
    destruct (IH _ Hrest) as (l' & Hp & Hf'). exists (x :: l').
    split; [now apply perm_skip | now constructor].
  - inversion Hf as [|? x ? l0 Hx Hrest]; subst.
    inversion Hrest as [|? y ? l1 Hy Hrest']; subst.
    exists (y :: x :: l1). split; [apply perm_swap | repeat constructor; assumption].
  - destruct (IH1 _ Hf) as (l' & Hp & Hf').
    destruct (IH2 _ Hf') as (l'' & Hp' & Hf'').
    exists l''. split; [etransitivity; eassumption | assumption].
Qed.

Lemma Forall2_matches_flip es l :
  List.Forall2 matches es l -> List.Forall2 matches l es.
Proof.
  induction 1 as [|e x es l Hm _ IH]; constructor; [|exact IH].
  unfold matches in *. now rewrite DeepEqual_sym.
Qed.

(** A pairing survives any rearrangement of either sequence, and exchanging
    the two. *)
Lemma pairing_rearrange es es' l l' :
  Permutation es es' -> Permutation l l' -> pairing es l -> pairing es' l'.
Proof.
  intros Hes Hl (m & Hp & Hf).
  destruct (Forall2_rearrange matches es es' Hes m Hf) as (m' & Hp' & Hf').
  exists m'. split; [|exact Hf'].
  etransitivity; [symmetry; exact Hl|]. etransitivity; eassumption.
Qed.

Lemma pairing_exchange es l : pairing es l -> pairing l es.
Proof.
  intros (m & Hp & Hf). apply Forall2_matches_flip in Hf.
  destruct (Forall2_rearrange matches m l (Permutation_sym Hp) es Hf)
    as (m' & Hp' & Hf').
  now exists m'.
Qed.

Lemma pairing_length es l : pairing es l -> length l = length es.
Proof.
  intros (m & Hp & Hf). apply Permutation_length in Hp.
  apply Forall2_length in Hf. lia.
Qed.

Section Silence.
Context `{Collaborators}.

Lemma take_1_nil {A} (l : list A) : take 1 l = [] <-> l = [].
Proof. destruct l; simpl; [tauto|]. rewrite take_0. split; discriminate. Qed.

Lemma reports_silent t (lengths others : list string) :
  (if Fatal_returns t then (lengths ++ others)%list
   else take 1 (lengths ++ others)%list) = []
  <-> lengths = [] /\ others = [].
Proof.
  destruct (Fatal_returns t); rewrite ?take_1_nil;
    (split; [apply app_eq_nil | now intros [-> ->]]).
Qed.

Lemma Delegated_silent_iff t actual expected extra xs ys :
  reflect.elements actual = Some xs -> reflect.elements expected = Some ys ->
  dispatched (run (Delegated.SameElements t actual expected extra)).1 = []
  <-> pairing ys xs.
Proof.
  intros Hxs Hys.
  rewrite (Delegated_SameElements_dispatched _ _ _ _ xs ys) by assumption.
  unfold Delegated_reports. rewrite reports_silent. split.
  - intros [Hlen Hu]. destruct (Nat.eqb_spec (length xs) (length ys)) as [He|];
      [|discriminate].
    apply unmatched_nil_iff; [exact He|]. now destruct (unmatched ∅ xs ys).
  - intros Hp. pose proof (pairing_length _ _ Hp) as Hlen.
    rewrite Hlen, Nat.eqb_refl. split; [reflexivity|].
    apply (unmatched_nil_iff xs ys Hlen) in Hp. now rewrite Hp.
Qed.

Lemma StackWalk_silent_iff first rest t actual expected extra xs ys :
  reflect.elements actual = Some xs -> reflect.elements expected = Some ys ->
  dispatched (run (StackWalk.SameElements (first :: rest) t actual expected
                                          extra)).1 = []
  <-> pairing ys xs.
Proof.
  intros Hxs Hys.
  rewrite (StackWalk_SameElements_dispatched _ _ _ _ _ _ xs ys) by assumption.
  unfold StackWalk_reports. rewrite reports_silent. split.
  - intros [Hlen Hu]. destruct (Nat.eqb_spec (length xs) (length ys)) as [He|];
      [|discriminate].
    apply unmatched_nil_iff; [exact He|]. now destruct (unmatched ∅ xs ys).
  - intros Hp. pose proof (pairing_length _ _ Hp) as Hlen.
    rewrite Hlen, Nat.eqb_refl. split; [reflexivity|].
    apply (unmatched_nil_iff xs ys Hlen) in Hp. now rewrite Hp.
Qed.

End Silence.

(** X2: [SameElements] dispatches nothing exactly when the expected
    elements can be paired one-to-one with the actual elements by deep
    equality (which makes the lengths equal); in every other case it
    dispatches, whatever the Fataler does after [Fatal]. *)
Theorem SameElements_silent_iff `{Collaborators} (t : Fataler) (first : Frame)
    (rest : list Frame) (actual expected : Value) (extra xs ys : list Value) :
  reflect.elements actual = Some xs -> reflect.elements expected = Some ys ->
  (dispatched (run (Delegated.SameElements t actual expected extra)).1 = []
   <-> pairing ys xs)
  /\ (dispatched (run (StackWalk.SameElements (first :: rest) t actual expected
                                              extra)).1 = []
      <-> pairing ys xs)
  /\ (pairing ys xs -> length xs = length ys).
Proof.
  intros Hxs Hys. split; [|split].
  - now apply Delegated_silent_iff.
  - now apply StackWalk_silent_iff.
  - apply pairing_length.
Qed.

Lemma SameElements_silent_iff_witness :
  let actual := ints 1 [1; 2]%Z in
  let expected := interfaces 10 [VInt "int" 1; VInt "int" 1] in
  ~ pairing [VInt "int" 1; VInt "int" 1] [VInt "int" 1; VInt "int" 2]
  /\ dispatched (run (@Delegated.SameElements Plain.collaborators capture
                        actual expected [])).1 <> [].
Proof.
  cbv zeta.
  destruct (@SameElements_silent_iff Plain.collaborators capture test_frame []
              (ints 1 [1; 2]%Z) (interfaces 10 [VInt "int" 1; VInt "int" 1]) []
              [VInt "int" 1; VInt "int" 2] [VInt "int" 1; VInt "int" 1]
              eq_refl eq_refl) as (Hd & _ & _).
  assert (Hne : dispatched (run (@Delegated.SameElements Plain.collaborators
                  capture (ints 1 [1; 2]%Z)
                  (interfaces 10 [VInt "int" 1; VInt "int" 1]) [])).1 <> []).
  { vm_compute. discriminate. }
  split; [|exact Hne]. intros Hp. apply Hne. now apply Hd.
Defined.

(** X3: [SameElements] ignores the order of both sequences: rearranging the
    actual elements, the expected elements or both does not change whether
    it dispatches. *)
Theorem SameElements_order_irrelevant `{Collaborators} (t : Fataler)
    (first : Frame) (rest : list Frame) (actual actual' expected expected' : Value)
    (extra xs xs' ys ys' : list Value) :
  reflect.elements actual = Some xs -> reflect.elements actual' = Some xs' ->
  reflect.elements expected = Some ys -> reflect.elements expected' = Some ys' ->
  Permutation xs xs' -> Permutation ys ys' ->
  (dispatched (run (Delegated.SameElements t actual expected extra)).1 = []
   <-> dispatched (run (Delegated.SameElements t actual' expected' extra)).1 = [])
  /\ (dispatched (run (StackWalk.SameElements (first :: rest) t actual expected
                                              extra)).1 = []
      <-> dispatched (run (StackWalk.SameElements (first :: rest) t actual'
                                                  expected' extra)).1 = []).
Proof.
  intros Hxs Hxs' Hys Hys' Hpx Hpy.
  rewrite (Delegated_silent_iff _ _ _ _ xs ys),
    (Delegated_silent_iff _ _ _ _ xs' ys'),
    (StackWalk_silent_iff _ _ _ _ _ _ xs ys),
    (StackWalk_silent_iff _ _ _ _ _ _ xs' ys') by assumption.
  assert (Hiff : pairing ys xs <-> pairing ys' xs').
  { split; apply pairing_rearrange; auto using Permutation_sym. }
  tauto.
Qed.

Lemma SameElements_order_irrelevant_witness :
  dispatched (run (@Delegated.SameElements Plain.collaborators capture
                     (ints 4 [1; 2; 3]%Z) (ints 6 [3; 1; 2]%Z) [])).1 = []
  <-> dispatched (run (@Delegated.SameElements Plain.collaborators capture
                         (ints 5 [2; 1; 3]%Z) (ints 4 [1; 2; 3]%Z) [])).1 = [].
Proof.
  refine (proj1 (@SameElements_order_irrelevant Plain.collaborators capture
            test_frame [] (ints 4 [1; 2; 3]%Z) (ints 5 [2; 1; 3]%Z)
            (ints 6 [3; 1; 2]%Z) (ints 4 [1; 2; 3]%Z) [] _ _ _ _
            eq_refl eq_refl eq_refl eq_refl _ _)).
  - apply perm_swap.
  - change (Permutation ([VInt "int" 3] ++ [VInt "int" 1; VInt "int" 2])
                        ([VInt "int" 1; VInt "int" 2] ++ [VInt "int" 3])).
    apply Permutation_app_comm.
Defined.

(** X4: [SameElements] treats its two sequences alike: exchanging actual
    and expected does not change whether it dispatches. *)
Theorem SameElements_exchange `{Collaborators} (t : Fataler) (first : Frame)
    (rest : list Frame) (actual expected : Value) (extra xs ys : list Value) :
  reflect.elements actual = Some xs -> reflect.elements expected = Some ys ->
  (dispatched (run (Delegated.SameElements t actual expected extra)).1 = []
   <-> dispatched (run (Delegated.SameElements t expected actual extra)).1 = [])
  /\ (dispatched (run (StackWalk.SameElements (first :: rest) t actual expected
                                              extra)).1 = []
      <-> dispatched (run (StackWalk.SameElements (first :: rest) t expected
                                                  actual extra)).1 = []).
Proof.
  intros Hxs Hys.
  rewrite (Delegated_silent_iff _ _ _ _ xs ys),
    (Delegated_silent_iff _ _ _ _ ys xs),
    (StackWalk_silent_iff _ _ _ _ _ _ xs ys),
    (StackWalk_silent_iff _ _ _ _ _ _ ys xs) by assumption.
  assert (Hiff : pairing ys xs <-> pairing xs ys).
  { split; apply pairing_exchange. }
  tauto.
Qed.

Lemma SameElements_exchange_witness :
  dispatched (run (@Delegated.SameElements Plain.collaborators capture
                     (ints 1 [1; 2]%Z) (ints 2 [1; 1]%Z) [])).1 = []
  <-> dispatched (run (@Delegated.SameElements Plain.collaborators capture
                         (ints 2 [1; 1]%Z) (ints 1 [1; 2]%Z) [])).1 = [].
Proof.
  exact (proj1 (@SameElements_exchange Plain.collaborators capture test_frame []
                  (ints 1 [1; 2]%Z) (ints 2 [1; 1]%Z) []
                  [VInt "int" 1; VInt "int" 2] [VInt "int" 1; VInt "int" 1]
                  eq_refl eq_refl)).
Defined.

(** ** What SameElements looks at *)

(** X5: [SameElements] looks at the elements only: two calls whose actual
    values have the same elements and whose expected values have the same
    elements dispatch the same number of messages, whatever the types and
    the nilness of the slices and whatever the extras. *)
Theorem SameElements_elements_only `{Collaborators} (t : Fataler) (first : Frame)
    (rest : list Frame) (actual actual' expected expected' : Value)
    (extra extra' xs ys : list Value) :
  reflect.elements actual = Some xs -> reflect.elements actual' = Some xs ->
  reflect.elements expected = Some ys -> reflect.elements expected' = Some ys ->
  length (dispatched (run (Delegated.SameElements t actual expected extra)).1)
  = length (dispatched (run (Delegated.SameElements t actual' expected' extra')).1)
  /\ length (dispatched (run (StackWalk.SameElements (first :: rest) t actual
                                                     expected extra)).1)
     = length (dispatched (run (StackWalk.SameElements (first :: rest) t actual'
                                                       expected' extra')).1).
Proof.
  intros Hxs Hxs' Hys Hys'.
  rewrite !(Delegated_SameElements_dispatched _ _ _ _ xs ys),
    !(StackWalk_SameElements_dispatched _ _ _ _ _ _ xs ys) by assumption.
  unfold Delegated_reports, StackWalk_reports.
  destruct (Fatal_returns t), (negb (length xs =? length ys)%nat);
    rewrite ?length_take, ?length_app, ?length_map; auto.
Qed.

Lemma SameElements_elements_only_witness :
  reflect.DeepEqual (VSlice "[]int" None) (VSlice "[]int" (Some (12%positive, []))) = false
  /\ length (dispatched (run (@Delegated.SameElements Plain.collaborators capture
                                (VSlice "[]int" None) (VSlice "[]int" (Some (12%positive, [])))
                                [])).1)
     = length (dispatched (run (@Delegated.SameElements Plain.collaborators
                                  capture (VSlice "[]string" (Some (13%positive, [])))
                                  (VSlice "[]int" None) [VBool true])).1).
Proof.
  split; [reflexivity|].
  exact (proj1 (@SameElements_elements_only Plain.collaborators capture
                  test_frame [] (VSlice "[]int" None) (VSlice "[]string" (Some (13%positive, [])))
                  (VSlice "[]int" (Some (12%positive, []))) (VSlice "[]int" None)
                  [] [VBool true] [] [] eq_refl eq_refl eq_refl eq_refl)).
Defined.

Lemma bytes_regular (l : list ascii) :
  List.Forall2 matches
    (map (fun c => VInt "uint8" (Z.of_nat (nat_of_ascii c))) l)
    (map (fun c => VInt "uint8" (Z.of_nat (nat_of_ascii c))) l).
Proof.
  induction l as [|c l IH]; simpl; constructor; [|exact IH].
  now apply DeepEqual_refl.
Qed.

(** X6: a string is a sequence of its bytes to [SameElements]: two strings
    with the same bytes in any order pass. *)
Theorem SameElements_strings `{Collaborators} (t : Fataler) (first : Frame)
    (rest : list Frame) (s1 s2 : string) (extra : list Value) :
  Permutation (list_ascii_of_string s1) (list_ascii_of_string s2) ->
  dispatched (run (Delegated.SameElements t (VString s1) (VString s2) extra)).1
  = []
  /\ dispatched (run (StackWalk.SameElements (first :: rest) t (VString s1)
                                             (VString s2) extra)).1 = [].
Proof.
  intros Hp.
  set (bytes := map (fun c => VInt "uint8" (Z.of_nat (nat_of_ascii c)))).
  assert (Hpair : pairing (bytes (list_ascii_of_string s2))
                          (bytes (list_ascii_of_string s1))).
  { exists (bytes (list_ascii_of_string s2)).
    split; [now apply Permutation_map | apply bytes_regular]. }
  split.
  - now apply (Delegated_silent_iff _ _ _ _ (bytes (list_ascii_of_string s1))
                 (bytes (list_ascii_of_string s2))).
  - now apply (StackWalk_silent_iff _ _ _ _ _ _ (bytes (list_ascii_of_string s1))
                 (bytes (list_ascii_of_string s2))).
Qed.

Lemma SameElements_strings_witness :
  Permutation (list_ascii_of_string "ab") (list_ascii_of_string "ba")
  /\ dispatched (run (@Delegated.SameElements Plain.collaborators capture
                        (VString "ab") (VString "ba") [])).1 = [].
Proof.
  assert (Hp : Permutation (list_ascii_of_string "ab") (list_ascii_of_string "ba")).
  { apply perm_swap. }
  split; [exact Hp|].
  exact (proj1 (@SameElements_strings Plain.collaborators capture test_frame []
                  "ab" "ba" [] Hp)).
Defined.

Lemma has_no_length_elements v :
  has_no_length v = true -> reflect.elements v = None.
Proof. now destruct v. Qed.

(** X7: given an actual or an expected value of a kind that has no length
    (nil, a boolean, a number, a func, a struct), [SameElements] panics
    inside [toInterfaceSlice] and never calls [Fatal]. *)
Theorem SameElements_no_length_panics `{Collaborators} (t : Fataler)
    (callers : list Frame) (actual expected : Value) (extra : list Value) :
  has_no_length actual = true \/ has_no_length expected = true ->
  (exists v, (run (Delegated.SameElements t actual expected extra)).2 = Panic v)
  /\ dispatched (run (Delegated.SameElements t actual expected extra)).1 = []
  /\ (exists v, run (StackWalk.SameElements callers t actual expected extra)
                = ([], Panic v)).
Proof.
  intros Hkind.
  assert (Hcase : reflect.elements actual = None
                  \/ exists xs, reflect.elements actual = Some xs
                                /\ reflect.elements expected = None).
  { destruct (reflect.elements actual) as [xs|] eqn:Hxs; [|now left].
    right. exists xs. split; [reflexivity|].
    destruct Hkind as [Ha|He]; [|now apply has_no_length_elements].
    apply has_no_length_elements in Ha. congruence. }
  unfold Delegated.SameElements, StackWalk.SameElements, toInterfaceSlice.
  unfold_run. rewrite call_Helper_run.
  destruct Hcase as [-> | (xs & -> & ->)]; cbn [fst snd];
    rewrite ?dispatched_app, ?dispatched_helper; eauto.
Qed.

Lemma SameElements_no_length_panics_witness :
  exists v, run (@StackWalk.SameElements Plain.collaborators [test_frame] capture
                   (ints 3 [1]%Z) (VInt "int" 1) []) = ([], Panic v).
Proof.
  refine (proj2 (proj2 (@SameElements_no_length_panics Plain.collaborators capture
            [test_frame] (ints 3 [1]%Z) (VInt "int" 1) [] _))).
  right. reflexivity.
Defined.

(** X8: on sequences of different lengths the first message [SameElements]
    dispatches is the different-lengths report showing both values, and it
    is the only one when [Fatal] does not return. *)
Theorem SameElements_length_mismatch_first `{Collaborators} (t : Fataler)
    (first : Frame) (rest : list Frame) (actual expected : Value)
    (extra xs ys : list Value) :
  reflect.elements actual = Some xs -> reflect.elements expected = Some ys ->
  length xs <> length ys ->
  head (dispatched (run (Delegated.SameElements t actual expected extra)).1)
  = Some (with_extras (lengths_text actual expected) extra)
  /\ head (dispatched (run (StackWalk.SameElements (first :: rest) t actual
                                                   expected extra)).1)
     = Some (StackWalk_text first rest (lengths_text actual expected) extra)
  /\ (Fatal_returns t = false ->
      dispatched (run (Delegated.SameElements t actual expected extra)).1
      = [with_extras (lengths_text actual expected) extra]
      /\ (run (Delegated.SameElements t actual expected extra)).2 = Goexit
      /\ run (StackWalk.SameElements (first :: rest) t actual expected extra)
         = ([Fatal (StackWalk_text first rest (lengths_text actual expected)
                                   extra)], Goexit)).
Proof.
  intros Hxs Hys Hlen.
  rewrite (Delegated_SameElements_dispatched _ _ _ _ xs ys),
    (StackWalk_SameElements_dispatched _ _ _ _ _ _ xs ys) by assumption.
  unfold run.
  rewrite (Delegated_SameElements_run _ _ _ _ xs ys),
    (StackWalk_SameElements_run _ _ _ _ _ _ xs ys) by assumption.
  unfold Delegated_reports, StackWalk_reports.
  apply Nat.eqb_neq in Hlen. rewrite Hlen. cbn [negb app].
  split; [now destruct (Fatal_returns t)|]. split; [now destruct (Fatal_returns t)|].
  intros Ht. cbn [fatals]. rewrite Ht. cbn [take fst snd]. rewrite take_0.
  repeat split.
Qed.

Lemma SameElements_length_mismatch_first_witness :
  let actual := ints 1 [1; 2]%Z in
  let expected := interfaces 11 [VInt "int" 1] in
  head (dispatched (run (@Delegated.SameElements Plain.collaborators testing_T
                           actual expected [])).1)
  = Some (@with_extras Plain.collaborators
            (@lengths_text Plain.collaborators actual expected) []).
Proof.
  cbv zeta.
  refine (proj1 (@SameElements_length_mismatch_first Plain.collaborators
            testing_T test_frame [] (ints 1 [1; 2]%Z) (interfaces 11 [VInt "int" 1]) []
            [VInt "int" 1; VInt "int" 2] [VInt "int" 1] eq_refl eq_refl _)).
  simpl. lia.
Defined.

(** ** Predicates that go in pairs *)

Section Pairs.
Context `{Collaborators}.

Lemma Delegated_DeepEqual_dispatched t x y a :
  dispatched (run (Delegated.DeepEqual t x y a)).1
  = if reflect.DeepEqual x y then [] else [with_extras (equal_text x y) a].
Proof.
  unfold Delegated.DeepEqual. rewrite Delegated_guard by reflexivity.
  destruct (reflect.DeepEqual x y); [reflexivity|]. cbn [negb].
  unfold Delegated_message. do 2 f_equal. now sprintf.
Qed.

Lemma StackWalk_DeepEqual_dispatched first rest t x y a :
  dispatched (run (StackWalk.DeepEqual (first :: rest) t x y a)).1
  = if reflect.DeepEqual x y then []
    else [StackWalk_text first rest (equal_text x y) a].
Proof.
  unfold StackWalk.DeepEqual. rewrite StackWalk_guard by reflexivity.
  destruct (reflect.DeepEqual x y); [reflexivity|]. cbn [negb].
  unfold StackWalk_message, StackWalk_text. do 4 f_equal. now sprintf.
Qed.

Lemma Delegated_PanicDeepEqual_dispatched in_flight t expected a :
  is_nil expected = false ->
  dispatched (run (Delegated.PanicDeepEqual in_flight t expected a)).1
  = if reflect.DeepEqual (Delegated.recover in_flight) expected then []
    else [with_extras (equal_text (Delegated.recover in_flight) expected) a].
Proof.
  intros Hy. unfold Delegated.PanicDeepEqual. rewrite Hy. cbv zeta.
  pose proof (Delegated_guard t
    (negb (reflect.DeepEqual (Delegated.recover in_flight) expected))) as Hg.
  unfold_run. rewrite call_Helper_run in *. erewrite Hg by reflexivity.
  destruct (reflect.DeepEqual (Delegated.recover in_flight) expected);
    [reflexivity|]. cbn [negb].
  unfold Delegated_message. do 2 f_equal. now sprintf.
Qed.

Lemma Delegated_Err_unexpected t e a :
  dispatched (run (Delegated.Err t (Some e) None a)).1
  = [with_extras (unexpected_error_text (Verbose e)) a].
Proof.
  unfold Delegated.Err. delegated_run. unfold Delegated_message.
  do 2 f_equal. now sprintf.
Qed.

Lemma StackWalk_Err_unexpected first rest t e a :
  dispatched (run (StackWalk.Err (first :: rest) t (Some e) None a)).1
  = [StackWalk_text first rest (unexpected_error_text (Error e)) a].
Proof.
  unfold StackWalk.Err. unfold_run. rewrite StackWalk_fatal_run by reflexivity.
  cbn [fst dispatched app]. unfold StackWalk_message, StackWalk_text.
  do 4 f_equal. now sprintf.
Qed.

End Pairs.

(** X9: of [DeepEqual] and [NotDeepEqual] on the same two values exactly one
    dispatches, and it dispatches one message. *)
Theorem DeepEqual_NotDeepEqual_complementary `{Collaborators} (t : Fataler)
    (first : Frame) (rest : list Frame) (x y : Value) (a : list Value) :
  (length (dispatched (run (Delegated.DeepEqual t x y a)).1)
   + length (dispatched (run (Delegated.NotDeepEqual t x y a)).1) = 1)%nat
  /\ (length (dispatched (run (StackWalk.DeepEqual (first :: rest) t x y a)).1)
      + length (dispatched (run (StackWalk.NotDeepEqual (first :: rest) t x y
                                                        a)).1) = 1)%nat.
Proof.
  unfold Delegated.DeepEqual, Delegated.NotDeepEqual, StackWalk.DeepEqual,
    StackWalk.NotDeepEqual.
  rewrite !Delegated_guard, !StackWalk_guard by reflexivity.
  now destruct (reflect.DeepEqual x y).
Qed.

(** X10: [DeepEqual] treats its two values alike: it dispatches on actual
    and expected exactly when it dispatches on them exchanged (the two
    messages differ in which value is shown as which). *)
Theorem DeepEqual_exchange `{Collaborators} (t : Fataler) (first : Frame)
    (rest : list Frame) (x y : Value) (a : list Value) :
  length (dispatched (run (Delegated.DeepEqual t x y a)).1)
  = length (dispatched (run (Delegated.DeepEqual t y x a)).1)
  /\ length (dispatched (run (StackWalk.DeepEqual (first :: rest) t x y a)).1)
     = length (dispatched (run (StackWalk.DeepEqual (first :: rest) t y x a)).1)
  /\ (reflect.DeepEqual x y = false ->
      dispatched (run (Delegated.DeepEqual t x y a)).1
      = [with_extras (equal_text x y) a]
      /\ dispatched (run (Delegated.DeepEqual t y x a)).1
         = [with_extras (equal_text y x) a]).
Proof.
  rewrite !Delegated_DeepEqual_dispatched, !StackWalk_DeepEqual_dispatched.
  rewrite (DeepEqual_sym y x).
  split; [now destruct (reflect.DeepEqual x y)|].
  split; [now destruct (reflect.DeepEqual x y)|].
  now intros ->.
Qed.

Lemma DeepEqual_exchange_witness :
  dispatched (run (@Delegated.DeepEqual Plain.collaborators capture
                     (VString "foo") (VString "bar") [])).1
  = [@with_extras Plain.collaborators
       (@equal_text Plain.collaborators (VString "foo") (VString "bar")) []].
Proof.
  refine (proj1 (proj2 (proj2 (@DeepEqual_exchange Plain.collaborators capture
            test_frame [] (VString "foo") (VString "bar") [])) _)).
  reflexivity.
Defined.

(** X11: of [StringContains] and [StringDoesNotContain] on the same two
    strings exactly one dispatches, and it dispatches one message. *)
Theorem StringContains_complementary `{Collaborators} (t : Fataler)
    (first : Frame) (rest : list Frame) (s substr : string) (a : list Value) :
  (length (dispatched (run (Delegated.StringContains t s substr a)).1)
   + length (dispatched (run (Delegated.StringDoesNotContain t s substr a)).1)
   = 1)%nat
  /\ (length (dispatched (run (StackWalk.StringContains (first :: rest) t s
                                                        substr a)).1)
      + length (dispatched (run (StackWalk.StringDoesNotContain (first :: rest)
                                   t s substr a)).1) = 1)%nat.
Proof.
  unfold Delegated.StringContains, Delegated.StringDoesNotContain,
    StackWalk.StringContains, StackWalk.StringDoesNotContain. cbv zeta.
  rewrite !StackWalk_guard by reflexivity.
  rewrite (Delegated_guard t (strings.Contains s substr)) by reflexivity.
  destruct (strings.Contains s nl || strings.Contains substr nl);
    rewrite Delegated_guard by reflexivity;
    now destruct (strings.Contains s substr).
Qed.

(** X12: of [Nil] and [NotNil] on the same value exactly one dispatches,
    and it dispatches one message (the dump of the value is assumed not to
    be blank, as for [Nil] alone). *)
Theorem Nil_NotNil_complementary `{Collaborators} (t : Fataler) (first : Frame)
    (rest : list Frame) (v : Value) (a : list Value) :
  tsdump [v] <> "" ->
  (length (dispatched (run (Delegated.Nil t v a)).1)
   + length (dispatched (run (Delegated.NotNil t v a)).1) = 1)%nat
  /\ (length (dispatched (run (StackWalk.Nil (first :: rest) t v a)).1)
      + length (dispatched (run (StackWalk.NotNil (first :: rest) t v a)).1)
      = 1)%nat.
Proof.
  intros Hd. rewrite Delegated_NotNil_dispatched, StackWalk_NotNil_dispatched.
  destruct (is_nil v) eqn:Hv.
  - unfold Delegated.Nil, StackWalk.Nil. unfold_run. rewrite call_Helper_run.
    destruct (all_but_last_run _ (([] ++ helper_events t)%list) Hd) as (h & _ & ->).
    destruct (all_but_last_run _ [] Hd) as (h' & _ & ->).
    rewrite Hv. cbn [negb fst]. rewrite dispatched_app, dispatched_helper.
    split; reflexivity.
  - rewrite Delegated_Nil_dispatched, StackWalk_Nil_dispatched by assumption.
    split; reflexivity.
Qed.

Lemma Nil_NotNil_complementary_witness :
  @tsdump Plain.collaborators [VNil] <> ""
  /\ (length (dispatched (run (@Delegated.Nil Plain.collaborators capture VNil
                                 [])).1)
      + length (dispatched (run (@Delegated.NotNil Plain.collaborators capture
                                   VNil [])).1) = 1)%nat.
Proof.
  assert (Hd : @tsdump Plain.collaborators [VNil] <> "").
  { vm_compute. discriminate. }
  split; [exact Hd|].
  exact (proj1 (@Nil_NotNil_complementary Plain.collaborators capture test_frame
                  [] VNil [] Hd)).
Defined.

(** X13: on an error value [Nil] dispatches the very message [Err]
    dispatches for that error and no pattern, in both variants; on nil
    neither dispatches. *)
Theorem Nil_as_Err `{Collaborators} (t : Fataler) (first : Frame)
    (rest : list Frame) (e : GoError) (a : list Value) :
  tsdump [VError e] <> "" -> tsdump [VNil] <> "" ->
  dispatched (run (Delegated.Nil t (VError e) a)).1
  = dispatched (run (Delegated.Err t (Some e) None a)).1
  /\ dispatched (run (StackWalk.Nil (first :: rest) t (VError e) a)).1
     = dispatched (run (StackWalk.Err (first :: rest) t (Some e) None a)).1
  /\ dispatched (run (Delegated.Nil t VNil a)).1
     = dispatched (run (Delegated.Err t None None a)).1
  /\ dispatched (run (Delegated.Err t None None a)).1 = [].
Proof.
  intros Hd Hn.
  rewrite Delegated_Nil_dispatched, StackWalk_Nil_dispatched by (reflexivity || assumption).
  rewrite Delegated_Err_unexpected, StackWalk_Err_unexpected.
  split; [reflexivity|]. split; [reflexivity|].
  unfold Delegated.Nil, Delegated.Err. unfold_run. rewrite call_Helper_run.
  destruct (all_but_last_run _ (([] ++ helper_events t)%list) Hn) as (h & _ & ->).
  cbn [is_nil negb fst]. now rewrite dispatched_app, dispatched_helper.
Qed.

Lemma Nil_as_Err_witness :
  let e := mkError "*errors.errorString" "foo" "foo" in
  dispatched (run (@Delegated.Nil Plain.collaborators capture (VError e) [])).1
  = dispatched (run (@Delegated.Err Plain.collaborators capture (Some e) None
                       [])).1.
Proof.
  cbv zeta.
  refine (proj1 (@Nil_as_Err Plain.collaborators capture test_frame []
            (mkError "*errors.errorString" "foo" "foo") [] _ _));
    vm_compute; discriminate.
Defined.

(** X14: a [PanicDeepEqual] that runs with no panic in flight recovers nil,
    so with an expected value that is not nil it always dispatches one
    message, which shows nil as the actual value. *)
Theorem PanicDeepEqual_without_panic `{Collaborators} (t : Fataler)
    (expected : Value) (a : list Value) :
  is_nil expected = false ->
  dispatched (run (Delegated.PanicDeepEqual None t expected a)).1
  = [with_extras (equal_text VNil expected) a].
Proof.
  intros Hy. rewrite Delegated_PanicDeepEqual_dispatched by exact Hy.
  now destruct expected.
Qed.

Lemma PanicDeepEqual_without_panic_witness :
  dispatched (run (@Delegated.PanicDeepEqual Plain.collaborators None capture
                     (VInt "int" 1) [])).1
  = [@with_extras Plain.collaborators
       (@equal_text Plain.collaborators VNil (VInt "int" 1)) []].
Proof.
  exact (@PanicDeepEqual_without_panic Plain.collaborators capture (VInt "int" 1)
           [] eq_refl).
Defined.

(** X15: with an expected value that is not nil, [PanicDeepEqual]
    dispatches what [DeepEqual] dispatches on the recovered value and the
    expected value. *)
Theorem PanicDeepEqual_as_DeepEqual `{Collaborators} (in_flight : option Value)
    (t : Fataler) (expected : Value) (a : list Value) :
  is_nil expected = false ->
  dispatched (run (Delegated.PanicDeepEqual in_flight t expected a)).1
  = dispatched (run (Delegated.DeepEqual t (Delegated.recover in_flight)
                                         expected a)).1.
Proof.
  intros Hy.
  now rewrite Delegated_PanicDeepEqual_dispatched, Delegated_DeepEqual_dispatched.
Qed.

Lemma PanicDeepEqual_as_DeepEqual_witness :
  dispatched (run (@Delegated.PanicDeepEqual Plain.collaborators
                     (Some (VInt "int" 2)) capture (VInt "int" 1) [])).1
  = dispatched (run (@Delegated.DeepEqual Plain.collaborators capture
                       (VInt "int" 2) (VInt "int" 1) [])).1.
Proof.
  exact (@PanicDeepEqual_as_DeepEqual Plain.collaborators (Some (VInt "int" 2))
           capture (VInt "int" 1) [] eq_refl).
Defined.

(** ** Every call of the package *)

Section EveryCall.
Context `{Collaborators}.

Lemma Delegated_guard_run t (failing : bool) format args extra :
  String.eqb format "" = false ->
  run (call_Helper t;;
       if failing then Delegated.fatal (Delegated.mkCond t format args extra)
       else ret tt)
  = fatals t (helper_events t)
      (map (fun b => with_extras b extra)
           (if failing then [Sprintf format args] else []))
      (helper_events t).
Proof.
  intros Hfmt. unfold_run. rewrite call_Helper_run. destruct failing; [|reflexivity].
  rewrite Delegated_fatal_run, Delegated_cond_String by exact Hfmt.
  cbn [Delegated.cond_Fataler map fatals app]. unfold after_Fatal, Delegated_message.
  now destruct (Fatal_returns t).
Qed.

Lemma StackWalk_guard_run f first rest t (failing : bool) format args extra :
  String.eqb format "" = false ->
  run (if failing
       then StackWalk.fatal (f :: first :: rest)
                            (StackWalk.mkCond t 0 format args extra)
       else ret tt)
  = fatals t []
      (map (fun b => StackWalk_text first rest b extra)
           (if failing then [Sprintf format args] else [])) [].
Proof.
  intros Hfmt. unfold_run. destruct failing; [|reflexivity].
  rewrite StackWalk_fatal_run by exact Hfmt.
  cbn [map fatals app]. unfold after_Fatal, StackWalk_message, StackWalk_text.
  now destruct (Fatal_returns t).
Qed.

Ltac delegated_fatals :=
  unfold_run; rewrite ?call_Helper_run; rewrite ?Delegated_fatal_run;
  rewrite ?Delegated_cond_String by reflexivity;
  cbn [Delegated.cond_Fataler map fatals app fst snd];
  unfold after_Fatal, Delegated_message;
  try match goal with |- context [Fatal_returns ?t] => destruct (Fatal_returns t) end;
  reflexivity.

(** A call of the delegating variant either panics before any [fatal], or
    is a sequence of [fatal] calls after the [Helper] of its entry, each
    with the extras of the call. *)
Lemma Delegated_invoke_run t c a :
  (exists texts,
      run (Delegated_invoke t c a)
      = fatals t (helper_events t) (map (fun b => with_extras b a) texts)
               (helper_events t))
  \/ (exists v, run (Delegated_invoke t c a) = (helper_events t, Panic v)).
Proof.
  destruct c as [err re|x y|x y|v|v|b|b|s substr|s substr|actual expected
                |in_flight expected]; cbn [Delegated_invoke].
  - left. unfold Delegated.Err.
    destruct err as [e|], re as [r|]; try destruct (MatchString r (Error e));
      cbn [negb]; first [exists []; delegated_fatals | eexists [_]; delegated_fatals].
  - left. eexists. unfold Delegated.DeepEqual.
    now rewrite Delegated_guard_run by reflexivity.
  - left. eexists. unfold Delegated.NotDeepEqual.
    now rewrite Delegated_guard_run by reflexivity.
  - unfold Delegated.Nil, all_but_last.
    destruct (init_bytes (tsdump [v])) as [h|].
    + left. destruct (is_nil v); cbn [negb]; [exists []; delegated_fatals|].
      destruct (as_error v); eexists [_]; delegated_fatals.
    + right. eexists. delegated_fatals.
  - left. eexists. unfold Delegated.NotNil.
    now rewrite Delegated_guard_run by reflexivity.
  - left. eexists. unfold Delegated.True_.
    now rewrite Delegated_guard_run by reflexivity.
  - left. eexists. unfold Delegated.False_.
    now rewrite Delegated_guard_run by reflexivity.
  - left. unfold Delegated.StringContains. cbv zeta.
    destruct (strings.Contains s nl || strings.Contains substr nl);
      eexists; now rewrite Delegated_guard_run by reflexivity.
  - left. eexists. unfold Delegated.StringDoesNotContain.
    now rewrite Delegated_guard_run by reflexivity.
  - destruct (reflect.elements actual) as [xs|] eqn:Hxs;
      [destruct (reflect.elements expected) as [ys|] eqn:Hys|].
    + left.
      exists ((if negb (length xs =? length ys)%nat
               then [lengths_text actual expected] else [])
              ++ map (missing_text actual expected) (unmatched ∅ xs ys))%list.
      unfold run. rewrite (Delegated_SameElements_run _ _ _ _ xs ys) by assumption.
      unfold Delegated_reports. rewrite map_app, map_map. cbn [app].
      now destruct (negb (length xs =? length ys)%nat).
    + right. eexists. unfold Delegated.SameElements, toInterfaceSlice.
      rewrite Hxs, Hys. delegated_fatals.
    + right. eexists. unfold Delegated.SameElements, toInterfaceSlice.
      rewrite Hxs. delegated_fatals.
  - unfold Delegated.PanicDeepEqual. destruct (is_nil expected).
    + right. eexists. delegated_fatals.
    + left. cbv zeta.
      destruct (reflect.DeepEqual (Delegated.recover in_flight) expected);
        cbn [negb]; first [exists []; delegated_fatals | eexists [_]; delegated_fatals].
Qed.

Ltac stackwalk_fatals :=
  unfold_run; rewrite ?StackWalk_fatal_run by reflexivity;
  cbn [map fatals app fst snd];
  unfold after_Fatal, StackWalk_message, StackWalk_text;
  try match goal with |- context [Fatal_returns ?t] => destruct (Fatal_returns t) end;
  reflexivity.

(** So is a call of the stack-walking variant from [first]. *)
Lemma StackWalk_invoke_run first rest t c a :
  (exists texts,
      run (StackWalk_invoke (first :: rest) t c a)
      = fatals t [] (map (fun b => StackWalk_text first rest b a) texts) [])
  \/ (exists v, run (StackWalk_invoke (first :: rest) t c a) = ([], Panic v)).
Proof.
  destruct c as [err re|x y|x y|x y|v|v|b|s substr|s substr|actual expected];
    cbn [StackWalk_invoke].
  - left. unfold StackWalk.Err.
    destruct err as [e|], re as [r|]; try destruct (MatchString r (Error e));
      cbn [negb]; first [exists []; stackwalk_fatals | eexists [_]; stackwalk_fatals].
  - left. eexists. unfold StackWalk.DeepEqual.
    now rewrite StackWalk_guard_run by reflexivity.
  - left. eexists. unfold StackWalk.NotDeepEqual.
    now rewrite StackWalk_guard_run by reflexivity.
  - left. eexists. unfold StackWalk.Subset.
    now rewrite StackWalk_guard_run by reflexivity.
  - unfold StackWalk.Nil, all_but_last.
    destruct (init_bytes (tsdump [v])) as [h|].
    + left. destruct (is_nil v); cbn [negb]; [exists []; stackwalk_fatals|].
      destruct (as_error v); eexists [_]; stackwalk_fatals.
    + right. eexists. stackwalk_fatals.
  - left. eexists. unfold StackWalk.NotNil.
    now rewrite StackWalk_guard_run by reflexivity.
  - left. eexists. unfold StackWalk.True_.
    now rewrite StackWalk_guard_run by reflexivity.
  - left. eexists. unfold StackWalk.StringContains.
    now rewrite StackWalk_guard_run by reflexivity.
  - left. eexists. unfold StackWalk.StringDoesNotContain.
    now rewrite StackWalk_guard_run by reflexivity.
  - destruct (reflect.elements actual) as [xs|] eqn:Hxs;
      [destruct (reflect.elements expected) as [ys|] eqn:Hys|].
    + left.
      exists ((if negb (length xs =? length ys)%nat
               then [lengths_text actual expected] else [])
              ++ map (missing_text actual expected) (unmatched ∅ xs ys))%list.
      unfold run. rewrite (StackWalk_SameElements_run _ _ _ _ _ _ xs ys) by assumption.
      unfold StackWalk_reports. rewrite map_app, map_map.
      now destruct (negb (length xs =? length ys)%nat).
    + right. eexists. unfold StackWalk.SameElements, toInterfaceSlice.
      rewrite Hxs, Hys. stackwalk_fatals.
    + right. eexists. unfold StackWalk.SameElements, toInterfaceSlice.
      rewrite Hxs. stackwalk_fatals.
Qed.

End EveryCall.

Section Summaries.
Context `{Collaborators}.

Lemma fatals_log t pre msgs log :
  (fatals t pre msgs log).1
  = (log ++ flat_map (fun m => pre ++ [Fatal m])
                     (if Fatal_returns t then msgs else take 1 msgs))%list.
Proof.
  revert log; induction msgs as [|m msgs IH]; intros log; simpl.
  - now destruct (Fatal_returns t); rewrite app_nil_r.
  - destruct (Fatal_returns t) eqn:Ht.
    + rewrite IH, ?Ht. simpl. now rewrite <- !app_assoc.
    + simpl. rewrite ?take_0. simpl. now rewrite ?app_nil_r, <- ?app_assoc.
Qed.

Lemma dispatched_flat_map pre sent :
  dispatched pre = [] ->
  dispatched (flat_map (fun m => pre ++ [Fatal m])%list sent) = sent.
Proof.
  intros Hpre. induction sent as [|m sent IH]; simpl; [reflexivity|].
  rewrite !dispatched_app, Hpre, IH. reflexivity.
Qed.

Lemma sent_facts t (P : string -> Prop) msgs (r : Res unit) :
  List.Forall P msgs ->
  r = match msgs with [] => Ok tt | _ :: _ => after_Fatal t end ->
  let sent := if Fatal_returns t then msgs else take 1 msgs in
  List.Forall P sent
  /\ (Fatal_returns t = false ->
      (length sent <= 1)%nat /\ (sent <> [] <-> r = Goexit)).
Proof.
  intros HP -> sent. subst sent. split.
  - destruct (Fatal_returns t); [exact HP|].
    destruct HP; simpl; [constructor | rewrite take_0; now repeat constructor].
  - intros Ht. rewrite Ht. unfold after_Fatal. rewrite Ht.
    destruct msgs; simpl; rewrite ?take_0; simpl.
    + split; [lia|]. split; [congruence | discriminate].
    + split; [lia|]. split; [reflexivity | discriminate].
Qed.

(** What a call of the delegating variant leaves in the log: the [Helper]
    of its entry and, for each message it sends, the [Helper] of [fatal]
    and the [Fatal]; each message is a text followed by the extras. *)
Lemma Delegated_invoke_summary t c a :
  exists sent,
    (run (Delegated_invoke t c a)).1
    = (helper_events t
       ++ flat_map (fun m => helper_events t ++ [Fatal m]) sent)%list
    /\ List.Forall (fun m => exists body, m = with_extras body a) sent
    /\ (Fatal_returns t = false ->
        (length sent <= 1)%nat
        /\ (sent <> [] <-> (run (Delegated_invoke t c a)).2 = Goexit)).
Proof.
  destruct (Delegated_invoke_run t c a) as [[texts Hrun] | [v Hrun]]; rewrite Hrun.
  - eexists. split; [apply fatals_log|]. rewrite fatals_result.
    apply sent_facts; [|reflexivity].
    apply List.Forall_forall. intros m Hm. apply in_map_iff in Hm as (b & <- & _).
    now exists b.
  - exists []. cbn [fst snd flat_map]. rewrite app_nil_r.
    split; [reflexivity|]. split; [constructor|]. intros _.
    split; [simpl; lia|]. split; [congruence | discriminate].
Qed.

(** What a call of the stack-walking variant from [first] leaves in the
    log: one [Fatal] for each message it sends; each message is the
    backspaces, the location of [first], a text and the extras. *)
Lemma StackWalk_invoke_summary first rest t c a :
  exists sent,
    (run (StackWalk_invoke (first :: rest) t c a)).1 = map Fatal sent
    /\ List.Forall (fun m => exists body, m = StackWalk_text first rest body a)
                   sent
    /\ (Fatal_returns t = false ->
        (length sent <= 1)%nat
        /\ (sent <> [] <-> (run (StackWalk_invoke (first :: rest) t c a)).2
                           = Goexit)).
Proof.
  destruct (StackWalk_invoke_run first rest t c a) as [[texts Hrun] | [v Hrun]];
    rewrite Hrun.
  - exists (if Fatal_returns t
            then map (fun b => StackWalk_text first rest b a) texts
            else take 1 (map (fun b => StackWalk_text first rest b a) texts)).
    split.
    { rewrite fatals_log. cbn [app].
      generalize (if Fatal_returns t
                  then map (fun b => StackWalk_text first rest b a) texts
                  else take 1 (map (fun b => StackWalk_text first rest b a) texts)).
      intros l. induction l as [|m l IH]; simpl; [reflexivity | now rewrite IH]. }
    rewrite fatals_result. apply sent_facts; [|reflexivity].
    apply List.Forall_forall. intros m Hm. apply in_map_iff in Hm as (b & <- & _).
    now exists b.
  - exists []. cbn [fst snd map]. split; [reflexivity|]. split; [constructor|].
    intros _. split; [simpl; lia|]. split; [congruence | discriminate].
Qed.

Lemma dispatched_map_Fatal sent : dispatched (map Fatal sent) = sent.
Proof. induction sent as [|m sent IH]; simpl; [reflexivity | now rewrite IH]. Qed.

Lemma Fatal_after_Helper_marks (sent : list string) : forall log marked,
  Fatal_after_Helper marked
    (log ++ flat_map (fun m => [Helper; Fatal m]) sent)%list
  = Fatal_after_Helper marked log.
Proof.
  induction sent as [|m sent IH]; intros log marked; simpl.
  - now rewrite app_nil_r.
  - replace (log ++ Helper :: Fatal m
                 :: flat_map (fun m0 => [Helper; Fatal m0]) sent)%list
      with ((log ++ [Helper; Fatal m])
            ++ flat_map (fun m0 => [Helper; Fatal m0]) sent)%list
      by (now rewrite <- List.app_assoc).
    rewrite IH. clear IH.
    revert marked; induction log as [|[|x] log IHl]; intros marked; simpl;
      [reflexivity | apply IHl | now rewrite IHl].
Qed.

End Summaries.

(** X16: in the delegating variant every call of a predicate marks the
    frame before it reports: on a Fataler with a [Helper] method the log
    starts with [Helper] and every [Fatal] comes right after a [Helper]; on
    a Fataler without one the log holds the [Fatal] calls only. *)
Theorem Delegated_Helper_before_Fatal `{Collaborators} (t : Fataler)
    (c : Delegated_call) (a : list Value) :
  (has_Helper t = true ->
   head (run (Delegated_invoke t c a)).1 = Some Helper
   /\ Fatal_after_Helper false (run (Delegated_invoke t c a)).1 = true)
  /\ (has_Helper t = false ->
      (run (Delegated_invoke t c a)).1
      = map Fatal (dispatched (run (Delegated_invoke t c a)).1)).
Proof.
  destruct (Delegated_invoke_summary t c a) as (sent & -> & _ & _).
  unfold helper_events. split; intros ->.
  - split; [reflexivity|].
    exact (Fatal_after_Helper_marks sent [Helper] false).
  - cbn [app]. induction sent as [|m sent IH]; simpl; [reflexivity|]. now rewrite <- IH.
Qed.

Lemma Delegated_Helper_before_Fatal_witness :
  (run (@Delegated_invoke Plain.collaborators testing_T
          (D_StringContains "foo" "bar") [])).1
  = [Helper; Helper; Fatal (single_line_text "bar" "foo")]
  /\ Fatal_after_Helper false
       (run (@Delegated_invoke Plain.collaborators testing_T
               (D_StringContains "foo" "bar") [])).1 = true.
Proof.
  split; [vm_compute; reflexivity|].
  exact (proj2 (proj1 (@Delegated_Helper_before_Fatal Plain.collaborators
                         testing_T (D_StringContains "foo" "bar") []) eq_refl)).
Defined.

(** X17: on a Fataler whose [Fatal] does not return, every call of a
    predicate of either variant dispatches at most one message, and it ends
    inside [Fatal] exactly when it has dispatched one. *)
Theorem aborting_Fataler_one_dispatch `{Collaborators} (t : Fataler)
    (first : Frame) (rest : list Frame) (dc : Delegated_call)
    (sc : StackWalk_call) (a : list Value) :
  Fatal_returns t = false ->
  ((length (dispatched (run (Delegated_invoke t dc a)).1) <= 1)%nat
   /\ (dispatched (run (Delegated_invoke t dc a)).1 <> []
       <-> (run (Delegated_invoke t dc a)).2 = Goexit))
  /\ ((length (dispatched (run (StackWalk_invoke (first :: rest) t sc a)).1)
       <= 1)%nat
      /\ (dispatched (run (StackWalk_invoke (first :: rest) t sc a)).1 <> []
          <-> (run (StackWalk_invoke (first :: rest) t sc a)).2 = Goexit)).
Proof.
  intros Ht.
  destruct (Delegated_invoke_summary t dc a) as (sent & Hlog & _ & Hd).
  destruct (StackWalk_invoke_summary first rest t sc a) as (sent' & Hlog' & _ & Hs).
  rewrite Hlog, Hlog'.
  rewrite dispatched_app, dispatched_helper, dispatched_flat_map,
    dispatched_map_Fatal by apply dispatched_helper.
  cbn [app]. auto.
Qed.

Lemma aborting_Fataler_one_dispatch_witness :
  dispatched (run (@Delegated_invoke Plain.collaborators testing_T
                     (D_SameElements (ints 1 [1; 2]%Z)
                                     (interfaces 8 [VInt "int" 3; VInt "int" 4]))
                     [])).1 <> []
  <-> (run (@Delegated_invoke Plain.collaborators testing_T
              (D_SameElements (ints 1 [1; 2]%Z)
                              (interfaces 8 [VInt "int" 3; VInt "int" 4]))
              [])).2 = Goexit.
Proof.
  exact (proj2 (proj1 (@aborting_Fataler_one_dispatch Plain.collaborators
                         testing_T test_frame []
                         (D_SameElements (ints 1 [1; 2]%Z)
                            (interfaces 8 [VInt "int" 3; VInt "int" 4]))
                         (SW_True true) [] eq_refl))).
Defined.

(** X18: the extras of a call are rendered in every message it dispatches,
    whichever predicate failed: each message ends with a line break and the
    trimmed dump of the extras. *)
Theorem extras_in_every_message `{Collaborators} (t : Fataler) (first : Frame)
    (rest : list Frame) (dc : Delegated_call) (sc : StackWalk_call)
    (a : list Value) (msg : string) :
  a <> [] ->
  (In msg (dispatched (run (Delegated_invoke t dc a)).1) ->
   exists body, msg = body +:+ nl +:+ tsdump a)
  /\ (In msg (dispatched (run (StackWalk_invoke (first :: rest) t sc a)).1) ->
      exists body, msg = body +:+ nl +:+ tsdump a).
Proof.
  intros Ha.
  assert (Hw : forall body, with_extras body a = body +:+ nl +:+ tsdump a).
  { intros body. unfold with_extras. destruct a; [contradiction | reflexivity]. }
  destruct (Delegated_invoke_summary t dc a) as (sent & Hlog & Hf & _).
  destruct (StackWalk_invoke_summary first rest t sc a) as (sent' & Hlog' & Hf' & _).
  rewrite Hlog, Hlog'.
  rewrite dispatched_app, dispatched_helper, dispatched_flat_map,
    dispatched_map_Fatal by apply dispatched_helper.
  cbn [app]. rewrite List.Forall_forall in Hf, Hf'. split; intros Hin.
  - destruct (Hf _ Hin) as (body & ->). exists body. apply Hw.
  - destruct (Hf' _ Hin) as (body & ->). unfold StackWalk_text. eexists. apply Hw.
Qed.

Lemma extras_in_every_message_witness :
  exists body,
    "expected true but got false" +:+ nl +:+ "(int) 43"
    = body +:+ nl +:+ @tsdump Plain.collaborators [VInt "int" 43].
Proof.
  refine (proj1 (@extras_in_every_message Plain.collaborators capture test_frame
            [] (D_True false) (SW_True false) [VInt "int" 43] _ _) _).
  - discriminate.
  - vm_compute. now left.
Defined.

(** X19: every message a predicate of the stack-walking variant dispatches
    starts with the fifteen backspaces and the location computed from the
    stack of the predicate's caller: the frames of the predicate, of
    [fatal] and of [String] are skipped. *)
Theorem StackWalk_messages_point_at_caller `{Collaborators} (t : Fataler)
    (first : Frame) (rest : list Frame) (sc : StackWalk_call) (a : list Value)
    (msg : string) :
  In msg (dispatched (run (StackWalk_invoke (first :: rest) t sc a)).1) ->
  exists text,
    msg = strings.Repeat backspace 15 +:+ location first rest +:+ text.
Proof.
  destruct (StackWalk_invoke_summary first rest t sc a) as (sent & -> & Hf & _).
  rewrite dispatched_map_Fatal. rewrite List.Forall_forall in Hf.
  intros Hin. destruct (Hf _ Hin) as (body & ->).
  unfold StackWalk_text, with_extras.
  destruct (length a =? 0)%nat; [now exists body|].
  exists (body +:+ nl +:+ tsdump a).
  fold StackWalk.deleteSelf. now rewrite !append_assoc.
Qed.

Lemma StackWalk_messages_point_at_caller_witness :
  exists text,
    strings.Repeat backspace 15 +:+ "ensure_test.go:245: "
    +:+ "expected true but got false"
    = strings.Repeat backspace 15
      +:+ @location Plain.collaborators test_frame [] +:+ text.
Proof.
  refine (@StackWalk_messages_point_at_caller Plain.collaborators capture
            test_frame [] (SW_True false) [] _ _).
  vm_compute. now left.
Defined.

(** ** The location and the frames skipped *)

Lemma through_test_app s1 f s2 :
  StackWalk.isTestFrame f = true ->
  through_test (s1 ++ f :: s2) = through_test (s1 ++ [f]).
Proof.
  intros Hf. induction s1 as [|g s1 IH]; simpl; [now rewrite Hf|].
  destruct (StackWalk.isTestFrame g); [reflexivity | now rewrite IH].
Qed.

(** X20: [pstack] does not look beyond the first test frame: the frames
    after a test frame do not change its result. *)
Theorem pstack_stops_at_test `{Collaborators} (s1 : list Frame) (f : Frame)
    (s2 : list Frame) :
  StackWalk.isTestFrame f = true ->
  run (StackWalk.pstack (s1 ++ f :: s2)) = run (StackWalk.pstack (s1 ++ [f])).
Proof.
  intros Hf. unfold run. destruct s1 as [|g s1]; cbn [app]; rewrite !pstack_run.
  - unfold location. now rewrite Hf.
  - unfold location. destruct (StackWalk.isTestFrame g) eqn:Hg; [reflexivity|].
    change (g :: s1 ++ f :: s2)%list with ((g :: s1) ++ f :: s2)%list.
    change (g :: s1 ++ [f])%list with ((g :: s1) ++ [f])%list.
    now rewrite (through_test_app (g :: s1) f s2 Hf).
Qed.

Lemma pstack_stops_at_test_witness :
  run (@StackWalk.pstack Plain.collaborators
         ([indirect_frame] ++ indirect_test_frame
          :: [mkFrame "testing/testing.go" 1 "tRunner"]))
  = run (@StackWalk.pstack Plain.collaborators
           ([indirect_frame] ++ [indirect_test_frame])).
Proof.
  exact (@pstack_stops_at_test Plain.collaborators [indirect_frame]
           indirect_test_frame [mkFrame "testing/testing.go" 1 "tRunner"]
           eq_refl).
Defined.

Lemma strip_no_separator name :
  name <> "" -> filepath.hasSeparator name = false ->
  filepath.stripTrailingSeparators name = name.
Proof.
  unfold filepath.hasSeparator.
  induction name as [|c name IH]; [contradiction|]. intros _. simpl.
  intros Hs. apply orb_false_iff in Hs as [Hc Hrest].
  destruct name as [|d name]; [simpl; now rewrite Hc|].
  rewrite IH by (discriminate || exact Hrest). reflexivity.
Qed.

Lemma strip_app path name :
  name <> "" -> filepath.hasSeparator name = false ->
  filepath.stripTrailingSeparators (path +:+ name) = path +:+ name.
Proof.
  intros Hne Hs. induction path as [|c path IH].
  - now apply strip_no_separator.
  - change (String c path +:+ name) with (String c (path +:+ name)).
    simpl. rewrite IH. destruct (path +:+ name) eqn:Hp; [|reflexivity].
    destruct path; [simpl in Hp; contradiction | discriminate].
Qed.

Lemma hasSeparator_app dir rest :
  filepath.hasSeparator (dir +:+ String "/"%char rest) = true.
Proof.
  unfold filepath.hasSeparator. induction dir as [|c dir IH]; [reflexivity|].
  change (String c dir +:+ String "/"%char rest)
    with (String c (dir +:+ String "/"%char rest)).
  simpl. rewrite IH. now rewrite orb_true_r.
Qed.

Lemma lastElement_no_separator name :
  filepath.hasSeparator name = false -> filepath.lastElement name = name.
Proof.
  unfold filepath.hasSeparator. destruct name as [|c name]; [reflexivity|].
  simpl. intros Hs. apply orb_false_iff in Hs as [Hc Hrest].
  fold (filepath.hasSeparator name). unfold filepath.hasSeparator.
  now rewrite Hrest, Hc.
Qed.

Lemma lastElement_app dir name :
  filepath.hasSeparator name = false ->
  filepath.lastElement (dir +:+ String "/"%char name) = name.
Proof.
  intros Hs. induction dir as [|c dir IH].
  - change ("" +:+ String "/"%char name) with (String "/"%char name).
    simpl. now rewrite Hs.
  - change (String c dir +:+ String "/"%char name)
      with (String c (dir +:+ String "/"%char name)).
    simpl. now rewrite hasSeparator_app.
Qed.

Lemma Base_dir_name dir name :
  name <> "" -> filepath.hasSeparator name = false ->
  filepath.Base (dir +:+ String "/"%char name) = name.
Proof.
  intros Hne Hs. unfold filepath.Base.
  assert (Hstrip : filepath.stripTrailingSeparators (dir +:+ String "/"%char name)
                   = dir +:+ String "/"%char name).
  { replace (dir +:+ String "/"%char name) with ((dir +:+ "/") +:+ name)
      by (now rewrite append_assoc).
    now apply strip_app. }
  rewrite Hstrip, lastElement_app by assumption.
  assert (Hpath : String.eqb (dir +:+ String "/"%char name) "" = false)
    by (now destruct dir).
  rewrite Hpath. destruct name; [contradiction | reflexivity].
Qed.

Lemma Base_name name :
  name <> "" -> filepath.hasSeparator name = false -> filepath.Base name = name.
Proof.
  intros Hne Hs. unfold filepath.Base.
  rewrite strip_no_separator, lastElement_no_separator by assumption.
  destruct name; [contradiction | reflexivity].
Qed.

(** X21: for a test frame [pstack] shows the file without its directories:
    the part after the last separator of the frame's file, or the file
    itself when it has no separator, followed by the line. *)
Theorem pstack_shows_base_name `{Collaborators} (first : Frame)
    (rest : list Frame) (dir name : string) :
  StackWalk.isTestFrame first = true ->
  name <> "" -> filepath.hasSeparator name = false ->
  File first = dir +:+ "/" +:+ name \/ File first = name ->
  run (StackWalk.pstack (first :: rest))
  = ([], Ok (name +:+ ":" +:+ pretty (Line first) +:+ ": ")).
Proof.
  intros Hf Hne Hs Hfile. unfold run. rewrite pstack_run. unfold location.
  rewrite Hf. do 3 f_equal.
  destruct Hfile as [-> | ->]; [now apply Base_dir_name | now apply Base_name].
Qed.

Lemma pstack_shows_base_name_witness :
  run (@StackWalk.pstack Plain.collaborators [test_frame])
  = ([], Ok ("ensure_test.go" +:+ ":" +:+ pretty 245%Z +:+ ": ")).
Proof.
  refine (@pstack_shows_base_name Plain.collaborators test_frame []
            "github.com/facebookgo/ensure" "ensure_test.go" eq_refl _ eq_refl _).
  - discriminate.
  - left. reflexivity.
Defined.

(** X22: [fatal] resolves the location from the frames above those it is
    told to skip: with [Skip] frames between the frame of its caller and
    [first], the message it sends is the backspaces, the location of
    [first], the formatted text if the format is not empty, and the extras
    if there are any; when the stack has no frame left after the skipped
    ones it panics and [Fatal] is not called. *)
Theorem fatal_skips_frames `{Collaborators} (c : StackWalk.cond) (f : Frame)
    (more : list Frame) (first : Frame) (rest stack : list Frame) :
  (length more = StackWalk.Skip c ->
   run (StackWalk.fatal (f :: more ++ first :: rest) c)
   = ([Fatal (StackWalk.deleteSelf +:+ location first rest
              +:+ (if String.eqb (StackWalk.Format c) "" then ""
                   else Sprintf (StackWalk.Format c) (StackWalk.FormatArgs c))
              +:+ (if (length (StackWalk.Extra c) =? 0)%nat then ""
                   else nl +:+ tsdump (StackWalk.Extra c)))],
      after_Fatal (StackWalk.cond_Fataler c)))
  /\ ((length stack <= StackWalk.Skip c + 1)%nat ->
      exists v, run (StackWalk.fatal stack c) = ([], Panic v)).
Proof.
  split.
  - intros Hlen. unfold StackWalk.fatal, StackWalk.cond_String. unfold_run.
    cbn [StackWalk.Skip StackWalk.Format StackWalk.FormatArgs StackWalk.Extra
         StackWalk.cond_Fataler].
    unfold StackWalk.Callers.
    replace (StackWalk.Skip c + 2 + 1)%nat with (S (S (S (length more)))) by lia.
    cbn [drop]. rewrite drop_app_length. rewrite pstack_run.
    unfold call_Fatal, after_Fatal. f_equal. f_equal. f_equal.
    change (Sprintf "%s%s" [AString StackWalk.deleteSelf; AString (location first rest)])
      with (StackWalk.deleteSelf +:+ location first rest +:+ "").
    rewrite append_nil_r.
    destruct (String.eqb (StackWalk.Format c) ""),
      (length (StackWalk.Extra c) =? 0)%nat;
      rewrite ?append_assoc, ?append_nil_r; reflexivity.
  - intros Hlen. unfold StackWalk.fatal, StackWalk.cond_String. unfold_run.
    cbn [StackWalk.Skip StackWalk.Format StackWalk.FormatArgs StackWalk.Extra
         StackWalk.cond_Fataler].
    unfold StackWalk.Callers.
    replace (StackWalk.Skip c + 2 + 1)%nat with (S (S (S (StackWalk.Skip c)))) by lia.
    cbn [drop]. rewrite drop_ge by lia. eexists. reflexivity.
Qed.

Lemma fatal_skips_frames_witness :
  run (@StackWalk.fatal Plain.collaborators
         (StackWalk.here "helper" 1 :: [StackWalk.here "wrapper" 2]
          ++ test_frame :: [])
         (StackWalk.mkCond capture 1 "expected true but got false" [] []))
  = ([Fatal (StackWalk.deleteSelf +:+ @location Plain.collaborators test_frame []
             +:+ "expected true but got false" +:+ "")],
     Ok tt).
Proof.
  exact (proj1 (@fatal_skips_frames Plain.collaborators
                  (StackWalk.mkCond capture 1 "expected true but got false" [] [])
                  (StackWalk.here "helper" 1) [StackWalk.here "wrapper" 2]
                  test_frame [] []) eq_refl).
Defined.

(** ** tsdump *)

Lemma Decode_ascii c r :
  (byte_value c < utf8.RuneSelf)%Z ->
  utf8.DecodeRuneInString (String c r) = (byte_value c, 1%nat).
Proof.
  intros Hc. apply Z.ltb_lt in Hc. unfold utf8.RuneSelf in Hc.
  unfold utf8.DecodeRuneInString, utf8.first. now rewrite Hc.
Qed.

(** X23: [tsdump] is the dump with the white space around it removed,
    white space being what Unicode calls so: the dump is white space
    runes, then [tsdump], then white space runes, and [tsdump] neither
    begins nor ends with a white space rune; in particular its first and
    its last byte are no ASCII white space, and it never ends in a line
    break. *)
Theorem tsdump_trimmed `{Collaborators} (a : list Value) :
  (exists lead trail,
      Sdump a = lead +:+ tsdump a +:+ trail
      /\ white_space lead /\ white_space trail)
  /\ unicode.IsSpace (utf8.DecodeRuneInString (tsdump a)).1 = false
  /\ unicode.IsSpace (utf8.DecodeLastRuneInString (tsdump a)).1 = false
  /\ (forall c r, tsdump a = String c r -> (byte_value c < utf8.RuneSelf)%Z ->
                  unicode.IsSpace (byte_value c) = false)
  /\ (forall c, last_byte (tsdump a) = Some c -> (byte_value c < utf8.RuneSelf)%Z ->
                unicode.IsSpace (byte_value c) = false)
  /\ last_byte (tsdump a) <> Some "010"%char.
Proof.
  unfold tsdump. destruct (TrimSpace_spec (Sdump a)) as (Hsplit & Hfirst & Hlast).
  repeat split; try assumption.
  - intros c r Hc Hascii. rewrite Hc, (Decode_ascii _ _ Hascii) in Hfirst.
    exact Hfirst.
  - intros c. apply TrimSpace_last.
  - intros Hc. now apply TrimSpace_last in Hc.
Qed.

Lemma tsdump_trimmed_witness :
  @Sdump Plain.collaborators [VInt "int" 1] = "(int) 1" +:+ nl
  /\ @tsdump Plain.collaborators [VInt "int" 1] = "(int) 1"
  /\ unicode.IsSpace
       (utf8.DecodeLastRuneInString
          (@tsdump Plain.collaborators [VInt "int" 1])).1 = false.
Proof.
  split; [reflexivity|]. split; [reflexivity|].
  exact (proj1 (proj2 (proj2 (@tsdump_trimmed Plain.collaborators
                                [VInt "int" 1])))).
Defined.

(** ** How many reports SameElements sends *)

Lemma unmatched_at_most es : forall used xs,
  (length (unmatched used xs es) <= length es)%nat.
Proof.
  induction es as [|a es IH]; intros used xs; simpl; [lia|].
  destruct (scan used a 0 xs); [specialize (IH (<[n := true]> used) xs); lia|].
  simpl. specialize (IH used xs). lia.
Qed.

Lemma unmatched_at_least es : forall used xs,
  (length es <= length (unmatched used xs es) + length (avail used 0 xs))%nat.
Proof.
  induction es as [|a es IH]; intros used xs; simpl; [lia|].
  destruct (scan used a 0 xs) as [i|] eqn:Hs.
  - destruct (scan_Some _ _ _ _ _ Hs) as (l1 & b & l2 & Ha & _ & _ & Hi).
    specialize (IH (<[i := true]> used) xs). rewrite Hi in IH. rewrite Ha.
    rewrite length_app in *. simpl. lia.
  - simpl. specialize (IH used xs). lia.
Qed.

(** X24: with a Fataler whose [Fatal] returns, [SameElements] on an
    expected sequence longer than the actual one always dispatches at least
    two messages, the different-lengths report and a missing-element
    report; it never dispatches more than one message per expected element
    and one for the lengths. *)
Theorem SameElements_report_count `{Collaborators} (t : Fataler) (first : Frame)
    (rest : list Frame) (actual expected : Value) (extra xs ys : list Value) :
  reflect.elements actual = Some xs -> reflect.elements expected = Some ys ->
  ((length (dispatched (run (Delegated.SameElements t actual expected extra)).1)
    <= 1 + length ys)%nat
   /\ (length (dispatched (run (StackWalk.SameElements (first :: rest) t actual
                                                       expected extra)).1)
       <= 1 + length ys)%nat)
  /\ (Fatal_returns t = true -> (length xs < length ys)%nat ->
      (2 <= length (dispatched (run (Delegated.SameElements t actual expected
                                                            extra)).1))%nat
      /\ (2 <= length (dispatched (run (StackWalk.SameElements (first :: rest) t
                                          actual expected extra)).1))%nat).
Proof.
  intros Hxs Hys.
  rewrite (Delegated_SameElements_dispatched _ _ _ _ xs ys),
    (StackWalk_SameElements_dispatched _ _ _ _ _ _ xs ys) by assumption.
  unfold Delegated_reports, StackWalk_reports.
  pose proof (unmatched_at_most ys ∅ xs) as Hmost.
  pose proof (unmatched_at_least ys ∅ xs) as Hleast. rewrite avail_empty in Hleast.
  split.
  - destruct (Fatal_returns t), (negb (length xs =? length ys)%nat);
      cbn [app]; rewrite ?length_take; cbn [length]; rewrite ?length_map; lia.
  - intros -> Hlt.
    destruct (Nat.eqb_spec (length xs) (length ys)) as [He|_]; [lia|].
    cbn [negb app length]. rewrite !length_map. lia.
Qed.

Lemma SameElements_report_count_witness :
  (2 <= length (dispatched (run (@Delegated.SameElements Plain.collaborators
                                   capture (ints 3 [1]%Z) (ints 2 [1; 1]%Z) [])).1))%nat.
Proof.
  refine (proj1 (proj2 (@SameElements_report_count Plain.collaborators capture
            test_frame [] (ints 3 [1]%Z) (ints 2 [1; 1]%Z) []
            [VInt "int" 1] [VInt "int" 1; VInt "int" 1] eq_refl eq_refl)
            eq_refl _)).
  simpl. lia.
Defined.

(** ** The recording Fataler and the backspaces *)

Lemma TrimLeft_deleteSelf (s : string) :
  strings.HasPrefix s backspace = false ->
  strings.TrimLeft (StackWalk.deleteSelf +:+ s) backspace = s.
Proof.
  intros Hs.
  assert (Hkeep : strings.TrimLeft s backspace = s).
  { destruct s as [|c s]; [reflexivity|]. simpl in *.
    rewrite andb_true_r in Hs. rewrite Hs. reflexivity. }
  exact Hkeep.
Qed.

Lemma location_not_empty `{Collaborators} first rest : location first rest <> "".
Proof.
  unfold location. destruct (StackWalk.isTestFrame first); [|discriminate].
  do 3 apply append_not_empty. discriminate.
Qed.

Lemma no_backspace_app (s r : string) :
  s <> "" -> strings.HasPrefix s backspace = false ->
  strings.HasPrefix (s +:+ r) backspace = false.
Proof. destruct s as [|c s]; [contradiction|]. intros _ Hs. exact Hs. Qed.

(** X25: what [capture.Equal] compares is the message without its
    backspaces: for a call that dispatched one message from a caller whose
    location does not begin with a backspace, [Equal] dispatches nothing
    exactly when the expected string is the location followed by the text
    of the message. *)
Theorem capture_Equal_undoes_deleteSelf `{Collaborators} (t t' : Fataler)
    (first : Frame) (rest : list Frame) (sc : StackWalk_call) (a : list Value)
    (msg : string) (caller : Frame) (others : list Frame) :
  strings.HasPrefix (location first rest) backspace = false ->
  dispatched (run (StackWalk_invoke (first :: rest) t sc a)).1 = [msg] ->
  exists text,
    msg = StackWalk.deleteSelf +:+ location first rest +:+ text
    /\ forall expected,
         dispatched
           (run (Capture.Equal (caller :: others) t'
                   (Capture.buffer (run (StackWalk_invoke (first :: rest) t sc
                                                          a)).1)
                   expected)).1 = []
         <-> expected = location first rest +:+ text.
Proof.
  intros Hloc Hmsg.
  destruct (StackWalk_invoke_summary first rest t sc a) as (sent & Hlog & Hf & _).
  rewrite Hlog, dispatched_map_Fatal in Hmsg. subst sent.
  apply List.Forall_inv in Hf as (body & ->).
  exists (if (length a =? 0)%nat then body else body +:+ nl +:+ tsdump a).
  assert (Hshape : StackWalk_text first rest body a
                   = StackWalk.deleteSelf
                     +:+ (location first rest
                          +:+ (if (length a =? 0)%nat then body
                               else body +:+ nl +:+ tsdump a))).
  { unfold StackWalk_text, with_extras. destruct (length a =? 0)%nat;
      now rewrite ?append_assoc. }
  split; [exact Hshape|]. intros expected.
  unfold Capture.buffer. rewrite Hlog, dispatched_map_Fatal. cbn [fold_right].
  rewrite append_nil_r, Hshape. unfold Capture.Equal. cbv zeta.
  rewrite TrimLeft_deleteSelf.
  2:{ apply no_backspace_app; [apply location_not_empty | exact Hloc]. }
  unfold StackWalk.DeepEqual. rewrite StackWalk_guard by reflexivity.
  cbn [reflect.DeepEqual].
  destruct (String.eqb_spec
              (location first rest
               +:+ (if (length a =? 0)%nat then body else body +:+ nl +:+ tsdump a))
              expected) as [He|Hne]; cbn [negb].
  - split; [now intros _ | reflexivity].
  - split; [discriminate | intros ->; contradiction].
Qed.

Lemma capture_Equal_undoes_deleteSelf_witness :
  exists text,
    StackWalk.deleteSelf +:+ "ensure_test.go:245: expected true but got false"
    = StackWalk.deleteSelf +:+ @location Plain.collaborators test_frame []
      +:+ text
    /\ forall expected,
         dispatched
           (run (@Capture.Equal Plain.collaborators [test_frame] testing_T
                   (Capture.buffer
                      (run (@StackWalk_invoke Plain.collaborators [test_frame]
                              capture (SW_True false) [])).1)
                   expected)).1 = []
         <-> expected = @location Plain.collaborators test_frame [] +:+ text.
Proof.
  refine (@capture_Equal_undoes_deleteSelf Plain.collaborators capture testing_T
            test_frame [] (SW_True false) [] _ test_frame [] _ _).
  - reflexivity.
  - vm_compute. reflexivity.
Defined.
